(** * rot.js display backends: the canvas bases and the hexagonal variant

    A shallow embedding of [src/display/canvas.ts] and [src/display/hex.ts]
    (with the option and draw-data shapes of [src/display/types.ts]),
    followed by the properties the specification states about them and by
    further properties of the code.

    Conventions of the embedding.
    - A JavaScript [number] is read as a real number: arithmetic is exact,
      and there is neither rounding nor [NaN] or an infinity.  A statement
      whose truth depends on the value of a quotient says that the divisor
      is not zero.  Where the rounding of the code's double-precision
      arithmetic can decide an answer, a statement keeps to the inputs on
      which it cannot: the exchange [w += h; h = w - h; w -= h] of a
      transposed backend is exact on whole numbers and rounds on
      fractions, so properties of a transposed backend are stated for
      boxes of whole-number sides; the bounds test of [eventToPosition] is
      stated with the subtraction, product and quotient left open
      ([eventToPosition_with]).
    - [Math.floor] and [Math.ceil] return integers, so they are typed
      [R -> Z]; fields that only ever hold such a result ([_hexSize], the
      canvas size) are typed [Z] and injected with [IZR] where the code
      computes with them.
    - A method is a function of the receiver [this].  [checkOptions],
      [computeSize], [computeFontSize], [eventToPosition] and [setOptions]
      return their result together with the receiver as the call leaves
      it; [draw], [_fill] and [_updateSize] return that receiver alone;
      [_normalizedEventToPosition] only reads and returns its result.
    - The 2D context is a record of the properties the code assigns plus the
      list of drawing calls issued so far, most recent last. *)

From Stdlib Require Import Reals ZArith String List Bool Lra Lia.
Import ListNotations.

#[local] Open Scope R_scope.
#[local] Open Scope string_scope.
#[local] Open Scope list_scope.

(** ** Numbers *)

Abbreviation number := R (only parsing).

Definition Math_floor (x : number) : Z := Zfloor x.
Definition Math_ceil (x : number) : Z := Zceil x.
Definition Math_min (a b : number) : number := Rmin a b.
Definition Math_sqrt (x : number) : number := sqrt x.

Arguments Math_floor x%_R.
Arguments Math_ceil x%_R.

(** Modelled from the spec: [mod] of [src/util.ts], here [util_mod], is not
    among the sources.  The specification calls the branch it guards "odd
    rows", so it is the remainder that is never negative,
    [(x % n + n) % n] with JavaScript's truncating [%]. *)
Definition util_mod (x n : Z) : Z := Z.rem (Z.rem x n + n) n.

(** [a !== b] on numbers, and on values that may be [undefined]. *)
Definition number_ne (a b : number) : bool :=
  if Req_dec_T a b then false else true.

Definition string_ne (a b : string) : bool := negb (String.eqb a b).

Definition strict_ne {A : Type} (ne : A -> A -> bool) (a b : option A) : bool :=
  match a, b with
  | Some u, Some v => ne u v
  | None, None => false
  | _, _ => true
  end.

(** ** Options ([types.ts], [hex.ts]) *)

(** [HexOptions]: every member but the discriminant is optional in the
    interface, and [checkOptions] is asked about objects of any layout, so
    each member may be absent. *)
Record HexOptions : Type := mkHexOptions {
  width' : option number;
  height' : option number;
  layout' : option string;
  fg' : option string;
  bg' : option string;
  fontSize' : option number;
  spacing' : option number;
  border' : option number;
  fontFamily' : option string;
  fontStyle' : option string;
  transpose' : option bool
}.

(** [Required<HexOptions>], the effective options a configured backend
    holds in [_options]. *)
Record RequiredHexOptions : Type := mkRequired {
  width : number;
  height : number;
  layout : string;
  fg : string;
  bg : string;
  fontSize : number;
  spacing : number;
  border : number;
  fontFamily : string;
  fontStyle : string;
  transpose : bool
}.

(** ** The drawing surface *)

(** The CSS font shorthand the code assembles, kept in its three parts:
    [`${style} ${fontSize}px ${fontFamily}`]. *)
Record Font : Type := mkFont {
  font_style : string;
  font_px : number;
  font_family : string
}.

Inductive DrawCall : Type :=
| beginPath
| moveTo (x y : number)
| lineTo (x y : number)
| fill (fillStyle : string)
| fillText (fillStyle : string) (text : string) (x y : number).

Record CanvasRenderingContext2D : Type := mkCtx {
  font : Font;
  fillStyle : string;
  textAlign : string;
  textBaseline : string;
  canvas_width : Z;
  canvas_height : Z;
  calls : list DrawCall
}.

Definition set_font (f : Font) (c : CanvasRenderingContext2D) :=
  mkCtx f (fillStyle c) (textAlign c) (textBaseline c)
        (canvas_width c) (canvas_height c) (calls c).

Definition set_fillStyle (s : string) (c : CanvasRenderingContext2D) :=
  mkCtx (font c) s (textAlign c) (textBaseline c)
        (canvas_width c) (canvas_height c) (calls c).

Definition set_textAlign (s : string) (c : CanvasRenderingContext2D) :=
  mkCtx (font c) (fillStyle c) s (textBaseline c)
        (canvas_width c) (canvas_height c) (calls c).

Definition set_textBaseline (s : string) (c : CanvasRenderingContext2D) :=
  mkCtx (font c) (fillStyle c) (textAlign c) s
        (canvas_width c) (canvas_height c) (calls c).

Definition set_canvas_width (w : Z) (c : CanvasRenderingContext2D) :=
  mkCtx (font c) (fillStyle c) (textAlign c) (textBaseline c)
        w (canvas_height c) (calls c).

Definition set_canvas_height (h : Z) (c : CanvasRenderingContext2D) :=
  mkCtx (font c) (fillStyle c) (textAlign c) (textBaseline c)
        (canvas_width c) h (calls c).

(** A path or text call is recorded with the fill style in force. *)
Definition issue (d : DrawCall) (c : CanvasRenderingContext2D) :=
  mkCtx (font c) (fillStyle c) (textAlign c) (textBaseline c)
        (canvas_width c) (canvas_height c) (calls c ++ [d]).

(** ** Draw data ([types.ts]) *)

Module DisplayData.
Record t : Type := make {
  x : number;
  y : number;
  chars : list string;
  fgs : list string;
  bgs : list string;
  ch : option (string + list string);
  fg : string;
  bg : string
}.
End DisplayData.

(** ** The hexagonal backend ([hex.ts]) *)

Record Hex : Type := mkHex {
  _options : RequiredHexOptions;
  _ctx : CanvasRenderingContext2D;
  _spacingX : number;
  _spacingY : number;
  _hexSize : Z
}.

Definition with_ctx (c : CanvasRenderingContext2D) (this : Hex) : Hex :=
  mkHex (_options this) c (_spacingX this) (_spacingY this) (_hexSize this).

Definition with_options (o : RequiredHexOptions) (this : Hex) : Hex :=
  mkHex o (_ctx this) (_spacingX this) (_spacingY this) (_hexSize this).

Definition checkOptions (this : Hex) (options : HexOptions) : bool * Hex :=
  (match layout' options with
   | Some l => String.eqb l "hex"
   | None => false
   end, this).

Definition computeSize (this : Hex) (availWidth availHeight : number) : (Z * Z) * Hex :=
  let '(availWidth, availHeight) :=
    if transpose (_options this) then
      let availWidth := availWidth + availHeight in
      let availHeight := availWidth - availHeight in
      let availWidth := availWidth - availHeight in
      (availWidth, availHeight)
    else (availWidth, availHeight) in
  let width := (Math_floor (availWidth / _spacingX this) - 1)%Z in
  let height :=
    Math_floor ((availHeight - 2 * IZR (_hexSize this)) / _spacingY this + 1) in
  ((width, height), this).

(** [ctx.fill()] and [ctx.fillText(text, x, y)] paint with the fill style
    assigned last. *)
Definition ctx_fill (c : CanvasRenderingContext2D) :=
  issue (fill (fillStyle c)) c.

Definition ctx_fillText (text : string) (x y : number) (c : CanvasRenderingContext2D) :=
  issue (fillText (fillStyle c) text x y) c.

(** The six-vertex path of [_fill(cx, cy)], before [beginPath] and [fill]. *)
Definition hexagon (this : Hex) (cx cy : number) : list DrawCall :=
  let a := IZR (_hexSize this) in
  let b := border (_options this) in
  if transpose (_options this) then
    [ moveTo (cx - a + b) cy;
      lineTo (cx - a / 2 + b) (cy + _spacingX this - b);
      lineTo (cx + a / 2 - b) (cy + _spacingX this - b);
      lineTo (cx + a - b) cy;
      lineTo (cx + a / 2 - b) (cy - _spacingX this + b);
      lineTo (cx - a / 2 + b) (cy - _spacingX this + b);
      lineTo (cx - a + b) cy ]
  else
    [ moveTo cx (cy - a + b);
      lineTo (cx + _spacingX this - b) (cy - a / 2 + b);
      lineTo (cx + _spacingX this - b) (cy + a / 2 - b);
      lineTo cx (cy + a - b);
      lineTo (cx - _spacingX this + b) (cy + a / 2 - b);
      lineTo (cx - _spacingX this + b) (cy - a / 2 + b);
      lineTo cx (cy - a + b) ].

Definition _fill (this : Hex) (cx cy : number) : Hex :=
  let ctx := issue beginPath (_ctx this) in
  let ctx := fold_left (fun c d => issue d c) (hexagon this cx cy) ctx in
  with_ctx (ctx_fill ctx) this.

(** The pixel point [px] that [draw] computes for a cell. *)
Definition cell_px (this : Hex) (x y : number) : number * number :=
  let px := ((x + 1) * _spacingX this, y * _spacingY this + IZR (_hexSize this)) in
  if transpose (_options this) then (snd px, fst px) else px.

(** The loop [for (let i=0;i<chars.length;i++)] of [draw]. *)
Fixpoint draw_chars (chars : list string) (px : number * number)
    (ctx : CanvasRenderingContext2D) : CanvasRenderingContext2D :=
  match chars with
  | [] => ctx
  | c :: rest =>
      draw_chars rest px (ctx_fillText c (fst px) (IZR (Math_ceil (snd px))) ctx)
  end.

Definition draw (this : Hex) (data : DisplayData.t) (clearBefore : bool) : Hex :=
  let px := cell_px this (DisplayData.x data) (DisplayData.y data) in
  let this :=
    if clearBefore then
      _fill (with_ctx (set_fillStyle (DisplayData.bg data) (_ctx this)) this)
            (fst px) (snd px)
    else this in
  if (List.length (DisplayData.chars data) =? 0)%nat then this
  else
    let ctx := set_fillStyle (DisplayData.fg data) (_ctx this) in
    with_ctx (draw_chars (DisplayData.chars data) px ctx) this.

Definition _normalizedEventToPosition (this : Hex) (x y : number) : Z * Z :=
  let '(x, y, nodeSize) :=
    if transpose (_options this) then
      let x := x + y in
      let y := x - y in
      let x := x - y in
      (x, y, canvas_width (_ctx this))
    else (x, y, canvas_height (_ctx this)) in
  let size := IZR nodeSize / height (_options this) in
  let y := Math_floor (y / size) in
  let x :=
    if (util_mod y 2 =? 0)%Z then
      (2 * Math_floor (x / (2 * _spacingX this)))%Z
    else
      let x := x - _spacingX this in
      (1 + 2 * Math_floor (x / (2 * _spacingX this)))%Z in
  (x, y).

Section Measured.

(** [ctx.measureText(text).width] under the font in force: the browser's
    answer, a parameter of the development. *)
Variable measureText : Font -> string -> number.

Definition computeFontSize (this : Hex) (availWidth availHeight : number) : Z * Hex :=
  let '(availWidth, availHeight) :=
    if transpose (_options this) then
      let availWidth := availWidth + availHeight in
      let availHeight := availWidth - availHeight in
      let availWidth := availWidth - availHeight in
      (availWidth, availHeight)
    else (availWidth, availHeight) in
  let hexSizeWidth :=
    2 * availWidth / ((width (_options this) + 1) * Math_sqrt 3) - 1 in
  let hexSizeHeight :=
    availHeight / (2 + 1.5 * (height (_options this) - 1)) in
  let hexSize := Math_min hexSizeWidth hexSizeHeight in
  let oldFont := font (_ctx this) in
  let this := with_ctx (set_font (mkFont "" 100 (fontFamily (_options this))) (_ctx this)) this in
  let width := Math_ceil (measureText (font (_ctx this)) "W") in
  let this := with_ctx (set_font oldFont (_ctx this)) this in
  let ratio := IZR width / 100 in
  let hexSize := (Math_floor hexSize + 1)%Z in
  let fontSize :=
    2 * IZR hexSize / (spacing (_options this) * (1 + ratio / Math_sqrt 3)) in
  ((Math_ceil fontSize - 1)%Z, this).

Definition _updateSize (this : Hex) : Hex :=
  let opts := _options this in
  let charWidth := Math_ceil (measureText (font (_ctx this)) "W") in
  let hexSize :=
    Math_floor (spacing opts * (fontSize opts + IZR charWidth / Math_sqrt 3) / 2) in
  let spacingX := IZR hexSize * Math_sqrt 3 / 2 in
  let spacingY := IZR hexSize * 1.5 in
  let this := mkHex opts (_ctx this) spacingX spacingY hexSize in
  let xval := Math_ceil ((width opts + 1) * _spacingX this) in
  let yval := Math_ceil ((height opts - 1) * _spacingY this + 2 * IZR (_hexSize this)) in
  let ctx :=
    if transpose opts then
      set_canvas_width yval (set_canvas_height xval (_ctx this))
    else
      set_canvas_height yval (set_canvas_width xval (_ctx this)) in
  with_ctx ctx this.

End Measured.

(** ** The canvas base ([canvas.ts]) *)

Definition Rltb (a b : number) : bool := if Rlt_dec a b then true else false.
Definition Rgeb (a b : number) : bool := if Rge_dec a b then true else false.

(** What [canvas.getBoundingClientRect()] answers: the place of the canvas
    on the page. *)
Module DOMRect.
Record t : Type := make {
  left : number;
  top : number;
  width : number;
  height : number
}.
End DOMRect.

Section BaseCanvas.

(** [BaseCanvas] is abstract in [_normalizedEventToPosition]: the variant
    supplies it.  It is taken with the receiver it leaves behind, so that a
    variant that records being called is covered too. *)
Variable T : Type.
Variable ctx_of : T -> CanvasRenderingContext2D.
Variable normalizedEventToPosition : T -> number -> number -> (Z * Z) * T.

Definition eventToPosition (this : T) (rect : DOMRect.t) (x y : number) : (Z * Z) * T :=
  let canvas := ctx_of this in
  let x := x - DOMRect.left rect in
  let y := y - DOMRect.top rect in
  let x := x * (IZR (canvas_width canvas) / DOMRect.width rect) in
  let y := y * (IZR (canvas_height canvas) / DOMRect.height rect) in
  if Rltb x 0 || Rltb y 0
     || Rgeb x (IZR (canvas_width canvas)) || Rgeb y (IZR (canvas_height canvas))
  then ((-1, -1)%Z, this)
  else normalizedEventToPosition this x y.

End BaseCanvas.

(** [eventToPosition] as [Hex] inherits it. *)
Definition Hex_eventToPosition (this : Hex) (rect : DOMRect.t) (x y : number) : (Z * Z) * Hex :=
  eventToPosition Hex _ctx
    (fun this x y => (_normalizedEventToPosition this x y, this)) this rect x y.

(** ** Applying options ([canvas.ts], over the absent [backend.ts]) *)

(** Modelled from the spec: the [DEFAULTS] of [Backend] ([backend.ts] is not
    among the sources) give a value to each optional member of
    [BaseDisplayOptions]; which values is not said, so they are a record the
    development is parametric in. *)
Record BaseDefaults : Type := mkBaseDefaults {
  DEFAULTS_width : number;
  DEFAULTS_height : number;
  DEFAULTS_layout : string;
  DEFAULTS_fg : string;
  DEFAULTS_bg : string
}.

(** Modelled from the spec: a backend is "uninitialized" until its first
    [setOptions] and "configured" from then on.  The uninitialized backend
    holds its surface and no options; its geometry fields are the zeros of
    the class body. *)
Inductive Backend : Type :=
| Uninitialized (ctx : CanvasRenderingContext2D)
| Configured (this : Hex).

(** A member of the prior effective options, [undefined] when there are
    none. *)
Definition prior {A : Type} (member : RequiredHexOptions -> A) (b : Backend) : option A :=
  match b with
  | Uninitialized _ => None
  | Configured this => Some (member (_options this))
  end.

Section SetOptions.

Variable Backend_DEFAULTS : BaseDefaults.
Variable measureText : Font -> string -> number.

(** The [DEFAULTS] getters of [Canvas] and [Hex], layered on the base's. *)
Definition DEFAULTS : RequiredHexOptions :=
  mkRequired
    (DEFAULTS_width Backend_DEFAULTS) (DEFAULTS_height Backend_DEFAULTS)
    (DEFAULTS_layout Backend_DEFAULTS)
    (DEFAULTS_fg Backend_DEFAULTS) (DEFAULTS_bg Backend_DEFAULTS)
    15 1 0 "monospace" "" false.

Definition or_default {A : Type} (given : option A) (dflt : A) : A :=
  match given with Some v => v | None => dflt end.

(** [{...this.DEFAULTS, ...options}] *)
Definition defaultedOptions (options : HexOptions) : RequiredHexOptions :=
  mkRequired
    (or_default (width' options) (width DEFAULTS))
    (or_default (height' options) (height DEFAULTS))
    (or_default (layout' options) (layout DEFAULTS))
    (or_default (fg' options) (fg DEFAULTS))
    (or_default (bg' options) (bg DEFAULTS))
    (or_default (fontSize' options) (fontSize DEFAULTS))
    (or_default (spacing' options) (spacing DEFAULTS))
    (or_default (border' options) (border DEFAULTS))
    (or_default (fontFamily' options) (fontFamily DEFAULTS))
    (or_default (fontStyle' options) (fontStyle DEFAULTS))
    (or_default (transpose' options) (transpose DEFAULTS)).

(** Modelled from the spec: [Backend.setOptions] ([backend.ts] is not among
    the sources) makes the defaulted options the effective ones and asks
    for a repaint on "any structural or default-coloring change relative to
    the prior effective options": a change of width, height, layout, fg or
    bg. *)
Definition Backend_setOptions (b : Backend) (options : HexOptions) : bool * Hex :=
  let effective := defaultedOptions options in
  let needsRepaint :=
    strict_ne number_ne (prior width b) (Some (width effective))
    || strict_ne number_ne (prior height b) (Some (height effective))
    || strict_ne string_ne (prior layout b) (Some (layout effective))
    || strict_ne string_ne (prior fg b) (Some (fg effective))
    || strict_ne string_ne (prior bg b) (Some (bg effective)) in
  (needsRepaint,
   match b with
   | Uninitialized ctx => mkHex effective ctx 0 0 0
   | Configured this => with_options effective this
   end).

(** [BaseCanvas.setOptions] *)
Definition BaseCanvas_setOptions (b : Backend) (opts : HexOptions) : bool * Hex :=
  let '(needsRepaint, this) := Backend_setOptions b opts in
  let this := if needsRepaint then _updateSize measureText this else this in
  (needsRepaint, this).

(** [Canvas.setOptions], which [Hex] inherits. *)
Definition setOptions (b : Backend) (opts : HexOptions) : bool * Hex :=
  let fontSize_ := prior fontSize b in
  let fontFamily_ := prior fontFamily b in
  let spacing_ := prior spacing b in
  let '(super, this) := BaseCanvas_setOptions b opts in
  let needsRepaint :=
    super
    || strict_ne number_ne fontSize_ (fontSize' opts)
    || strict_ne string_ne fontFamily_ (fontFamily' opts)
    || strict_ne number_ne spacing_ (spacing' opts) in
  let this :=
    if needsRepaint then
      let opts := _options this in
      let style :=
        if (String.length (fontStyle opts) =? 0)%nat then ""
        else (fontStyle opts ++ " ")%string in
      let font := mkFont style (fontSize opts) (fontFamily opts) in
      let this := with_ctx (set_font font (_ctx this)) this in
      let this := _updateSize measureText this in
      let this := with_ctx (set_font font (_ctx this)) this in
      let this := with_ctx (set_textAlign "center" (_ctx this)) this in
      with_ctx (set_textBaseline "middle" (_ctx this)) this
    else this in
  (needsRepaint, this).

End SetOptions.

(** ** Concrete inputs *)

(** A fixed-pitch face whose glyphs advance 0.6 em (600 units in an em of
    1000): the width of a text of one glyph under a font of [n] pixels is
    [0.6 n]. *)
Definition fixed_pitch : Font -> string -> number :=
  fun f _ => 0.6 * font_px f.

(** A context as the browser hands it out: 300 by 150, ["10px sans-serif"]. *)
Definition blank_ctx : CanvasRenderingContext2D :=
  mkCtx (mkFont "" 10 "sans-serif") "#000000" "start" "alphabetic" 300 150 [].

Definition rot_DEFAULTS : BaseDefaults :=
  mkBaseDefaults 80 25 "rect" "#ccc" "#000".

(** The options of the specification's scenario, with the transposition
    and the font size left open:
    [{layout:"hex", width:10, height:10, fontSize:px, fontFamily:"monospace",
      spacing:1, border:0, transpose:t}]. *)
Definition scenario_with (t : bool) (px : number) : HexOptions :=
  mkHexOptions (Some 10) (Some 10) (Some "hex") None None
               (Some px) (Some 1) (Some 0) (Some "monospace") None (Some t).

(** The scenario itself: not transposed, 15 pixels. *)
Definition scenario : HexOptions := scenario_with false 15.

(** Effective options written back as an options object. *)
Definition given (o : RequiredHexOptions) : HexOptions :=
  mkHexOptions (Some (width o)) (Some (height o)) (Some (layout o))
               (Some (fg o)) (Some (bg o))
               (Some (fontSize o)) (Some (spacing o)) (Some (border o))
               (Some (fontFamily o)) (Some (fontStyle o)) (Some (transpose o)).

Definition set_transpose (t : bool) (o : RequiredHexOptions) : RequiredHexOptions :=
  mkRequired (width o) (height o) (layout o) (fg o) (bg o)
             (fontSize o) (spacing o) (border o) (fontFamily o) (fontStyle o) t.

(** The backend the scenario's options lead to once the font is [px] pixels
    and the circumradius derived from it is [a]: ten by ten cells on a
    canvas of [w] by [h] pixels. *)
Definition hex_of_radius (t : bool) (px : number) (a w h : Z) : Hex :=
  mkHex (mkRequired 10 10 "hex" "#ccc" "#000" px 1 0 "monospace" "" t)
        (mkCtx (mkFont "" px "monospace") "#000000" "center" "middle" w h [])
        (IZR a * Math_sqrt 3 / 2) (IZR a * 1.5) a.

(** At 15 pixels the circumradius is 10, at 14 pixels 9. *)
Definition ten_by_ten (t : bool) : Hex :=
  if t then hex_of_radius true 15 10 155 96
  else hex_of_radius false 15 10 96 155.

Definition radius_nine : Hex := hex_of_radius false 14 9 86 140.

(** One cell showing ["@"], white on black. *)
Definition at_sign (x y : number) : DisplayData.t :=
  DisplayData.make x y ["@"] ["#fff"] ["#000"] (Some (inl "@")) "#fff" "#000".

Definition set_fontSize (px : number) (o : RequiredHexOptions) : RequiredHexOptions :=
  mkRequired (width o) (height o) (layout o) (fg o) (bg o)
             px (spacing o) (border o) (fontFamily o) (fontStyle o) (transpose o).

(** A fixed-pitch face whose glyphs advance half an em. *)
Definition half_em : Font -> string -> number :=
  fun f _ => 0.5 * font_px f.

Definition swap (p : Z * Z) : Z * Z := (snd p, fst p).

(** ** Vocabulary of the further properties *)

(** The options with another grid size, as [setOptions({width, height})]
    leaves them. *)
Definition resize (w h : number) (o : RequiredHexOptions) : RequiredHexOptions :=
  mkRequired w h (layout o) (fg o) (bg o)
             (fontSize o) (spacing o) (border o) (fontFamily o) (fontStyle o)
             (transpose o).

(** The point a drawing call addresses lies on a canvas of [w] by [h]. *)
Definition within (w h : number) (d : DrawCall) : Prop :=
  match d with
  | moveTo x y | lineTo x y | fillText _ _ x y => 0 <= x <= w /\ 0 <= y <= h
  | beginPath | fill _ => True
  end.

(** The points of a path, in order. *)
Fixpoint path_points (ds : list DrawCall) : list (number * number) :=
  match ds with
  | [] => []
  | (moveTo x y | lineTo x y) :: rest => (x, y) :: path_points rest
  | _ :: rest => path_points rest
  end.

(** Squared distance of two points. *)
Definition dist2 (p q : number * number) : number :=
  (fst p - fst q) * (fst p - fst q) + (snd p - snd q) * (snd p - snd q).

(** Consecutive points of a path. *)
Fixpoint sides (ps : list (number * number)) : list ((number * number) * (number * number)) :=
  match ps with
  | p :: (q :: _) as rest => (p, q) :: sides rest
  | _ => []
  end.

(** The side of the box [computeSize] and [computeFontSize] measure
    columns against, and the side they measure rows against. *)
Definition along_columns (this : Hex) (W H : number) : number :=
  if transpose (_options this) then H else W.

Definition along_rows (this : Hex) (W H : number) : number :=
  if transpose (_options this) then W else H.

(** The canvas side the grid's rows run along. *)
Definition rows_side (this : Hex) : Z :=
  if transpose (_options this) then canvas_width (_ctx this)
  else canvas_height (_ctx this).

Definition columns_side (this : Hex) : Z :=
  if transpose (_options this) then canvas_height (_ctx this)
  else canvas_width (_ctx this).

(** The steps from a cell to its six neighbours in doubled coordinates. *)
Definition neighbours : list (number * number) :=
  [ (2, 0); (1, 1); (-1, 1); (-2, 0); (-1, -1); (1, -1) ].

(** ** Arithmetic that rounds *)

(** A whole number. *)
Definition whole (x : number) : Prop := exists z : Z, x = IZR z.

(** The boxes a backend handles without its exchange of the two sides
    rounding: any box when there is no transposition to make, a box of
    whole-number sides otherwise. *)
Definition exchanged_exactly (this : Hex) (W H : number) : Prop :=
  transpose (_options this) = false \/ (whole W /\ whole H).

Section Rounding.

(** [BaseCanvas.eventToPosition] with the subtraction, the product and the
    quotient of numbers left open: the double-precision operations of the
    code round, and which way they round decides the test at the far edge
    of the canvas.  [eventToPosition] is this function at the exact
    operations. *)
Variable sub mul div : number -> number -> number.
Variable T : Type.
Variable ctx_of : T -> CanvasRenderingContext2D.
Variable normalizedEventToPosition : T -> number -> number -> (Z * Z) * T.

Definition eventToPosition_with (this : T) (rect : DOMRect.t) (x y : number) : (Z * Z) * T :=
  let canvas := ctx_of this in
  let x := sub x (DOMRect.left rect) in
  let y := sub y (DOMRect.top rect) in
  let x := mul x (div (IZR (canvas_width canvas)) (DOMRect.width rect)) in
  let y := mul y (div (IZR (canvas_height canvas)) (DOMRect.height rect)) in
  if Rltb x 0 || Rltb y 0
     || Rgeb x (IZR (canvas_width canvas)) || Rgeb y (IZR (canvas_height canvas))
  then ((-1, -1)%Z, this)
  else normalizedEventToPosition this x y.

End Rounding.

(** ** A face whose styled glyphs are wider *)

(** Glyphs advance 0.6 em in the plain face and 0.7 em under a font style,
    as a bold cut does. *)
Definition wide_when_styled : Font -> string -> number :=
  fun f _ =>
    if (String.length (font_style f) =? 0)%nat then 0.6 * font_px f
    else 0.7 * font_px f.




(** * Properties *)

(** ** Arithmetic the proofs share *)

(** Closing [Math_floor x = k] and [Math_ceil x = k] when linear
    arithmetic bounds [x]. *)
Ltac floor_is := unfold Math_floor; apply Zfloor_eq; lra.
Ltac ceil_is := unfold Math_ceil; apply Zceil_eq; lra.

Lemma sqrt3_sqr : Math_sqrt 3 * Math_sqrt 3 = 3.
Proof. unfold Math_sqrt. apply sqrt_sqrt. lra. Qed.

Lemma sqrt3_bounds : 1.732 < Math_sqrt 3 < 1.7321.
Proof.
  assert (H := sqrt3_sqr).
  assert (P : 0 <= Math_sqrt 3) by (unfold Math_sqrt; apply sqrt_pos).
  split; nra.
Qed.

Lemma floor_div_eq (k : Z) (x d : number) :
  0 < d -> IZR k * d <= x < (IZR k + 1) * d -> Math_floor (x / d) = k.
Proof.
  intros Hd [Hlo Hhi]. unfold Math_floor. apply Zfloor_eq.
  split.
  - apply Rmult_le_reg_r with d; [exact Hd|].
    unfold Rdiv. rewrite Rmult_assoc, Rinv_l by lra. lra.
  - apply Rmult_lt_reg_r with d; [exact Hd|].
    unfold Rdiv. rewrite Rmult_assoc, Rinv_l by lra. lra.
Qed.

Lemma ceil_div_eq (k : Z) (x d : number) :
  0 < d -> (IZR k - 1) * d < x <= IZR k * d -> Math_ceil (x / d) = k.
Proof.
  intros Hd [Hlo Hhi]. unfold Math_ceil. apply Zceil_eq.
  split.
  - apply Rmult_lt_reg_r with d; [exact Hd|].
    unfold Rdiv. rewrite Rmult_assoc, Rinv_l by lra. lra.
  - apply Rmult_le_reg_r with d; [exact Hd|].
    unfold Rdiv. rewrite Rmult_assoc, Rinv_l by lra. lra.
Qed.

Lemma number_ne_same (a : number) : number_ne a a = false.
Proof. unfold number_ne. destruct (Req_dec_T a a); congruence. Qed.

Lemma string_ne_same (s : string) : string_ne s s = false.
Proof. unfold string_ne. now rewrite String.eqb_refl. Qed.

Lemma util_mod_2 (y : Z) : (util_mod y 2 =? 0)%Z = Z.even y.
Proof.
  unfold util_mod.
  destruct (Z.even y) eqn:E.
  - apply Z.even_spec in E. destruct E as [k ->].
    rewrite Z.mul_comm, Z.rem_mul by lia. reflexivity.
  - assert (O : Z.odd y = true) by (rewrite <- Z.negb_even, E; reflexivity).
    apply Z.odd_spec in O. destruct O as [k ->].
    apply Z.eqb_neq.
    assert (H := Z.rem_bound_abs (2 * k + 1) 2 ltac:(lia)).
    assert (D := Z.quot_rem' (2 * k + 1) 2).
    assert (H2 := Z.rem_bound_abs (Z.rem (2 * k + 1) 2 + 2) 2 ltac:(lia)).
    assert (D2 := Z.quot_rem' (Z.rem (2 * k + 1) 2 + 2) 2).
    lia.
Qed.

(** ** [checkOptions] *)

(** C7. [Hex.checkOptions] answers [true] exactly when the layout of the
    options it is asked about is ["hex"], and it leaves the backend as it
    was. *)
Theorem checkOptions_layout_only (this : Hex) (o : HexOptions) :
  (fst (checkOptions this o) = true <-> layout' o = Some "hex")
  /\ snd (checkOptions this o) = this.
Proof.
  unfold checkOptions; simpl. split; [|reflexivity].
  destruct (layout' o) as [l|].
  - rewrite String.eqb_eq. split; congruence.
  - split; discriminate.
Qed.

(** ** [computeSize] *)

(** C4. Without transposition [computeSize] is
    [[floor(availWidth / spacingX) - 1,
      floor((availHeight - 2 hexSize) / spacingY + 1)]], and the geometry
    [_updateSize] derives is [spacingX = hexSize * sqrt 3 / 2],
    [spacingY = hexSize * 1.5], with [hexSize] the circumradius computed
    from the font size and the measured glyph width. *)
Theorem computeSize_formula
    (measureText : Font -> string -> number) (this0 : Hex) (W H : number) :
  transpose (_options this0) = false ->
  let this := _updateSize measureText this0 in
  fst (computeSize this W H)
  = ((Math_floor (W / _spacingX this) - 1)%Z,
     Math_floor ((H - 2 * IZR (_hexSize this)) / _spacingY this + 1))
  /\ _spacingX this = IZR (_hexSize this) * Math_sqrt 3 / 2
  /\ _spacingY this = IZR (_hexSize this) * 1.5
  /\ _hexSize this
     = Math_floor (spacing (_options this0)
                   * (fontSize (_options this0)
                      + IZR (Math_ceil (measureText (font (_ctx this0)) "W"))
                        / Math_sqrt 3) / 2).
Proof.
  intros Ht this.
  assert (Ho : _options this = _options this0).
  { unfold this, _updateSize. simpl. destruct (transpose (_options this0)); reflexivity. }
  split; [|split; [|split]].
  - unfold computeSize. rewrite Ho, Ht. reflexivity.
  - unfold this, _updateSize; simpl. destruct (transpose (_options this0)); reflexivity.
  - unfold this, _updateSize; simpl. destruct (transpose (_options this0)); reflexivity.
  - unfold this, _updateSize; simpl. destruct (transpose (_options this0)); reflexivity.
Qed.

Lemma computeSize_formula_witness :
  transpose (_options (ten_by_ten false)) = false
  /\ let this := _updateSize fixed_pitch (ten_by_ten false) in
     fst (computeSize this 640 480)
     = ((Math_floor (640 / _spacingX this) - 1)%Z,
        Math_floor ((480 - 2 * IZR (_hexSize this)) / _spacingY this + 1))
     /\ _spacingX this = IZR (_hexSize this) * Math_sqrt 3 / 2
     /\ _spacingY this = IZR (_hexSize this) * 1.5
     /\ _hexSize this
        = Math_floor (1 * (15 + IZR (Math_ceil (fixed_pitch (mkFont "" 15 "monospace") "W"))
                               / Math_sqrt 3) / 2).
Proof.
  split; [reflexivity|].
  exact (computeSize_formula fixed_pitch (ten_by_ten false) 640 480 eq_refl).
Defined.

Lemma computeSize_ten_by_ten : fst (computeSize (ten_by_ten false) 200 100) = (22, 6)%Z.
Proof.
  assert (B := sqrt3_bounds).
  unfold computeSize, ten_by_ten, hex_of_radius; simpl.
  f_equal.
  - rewrite (floor_div_eq 23); [reflexivity| lra | lra].
  - floor_is.
Qed.

Lemma computeSize_ten_by_ten_transposed :
  fst (computeSize (ten_by_ten true) 100 200) = (22, 6)%Z.
Proof.
  assert (B := sqrt3_bounds).
  unfold computeSize, ten_by_ten, hex_of_radius; simpl.
  f_equal.
  - rewrite (floor_div_eq 23); [reflexivity| lra | lra].
  - floor_is.
Qed.

(** C3, as the code has it. For a box of whole-number sides,
    [computeSize(W, H)] of a transposed backend is [computeSize(H, W)] of
    the same backend without transposition, the pair in the same order:
    first the [width] option, then the [height] option.  The three
    assignments [w += h; h = w - h; w -= h] exchange the sides of the box,
    exactly so on whole numbers, and nothing exchanges the answer. *)
Theorem computeSize_transpose (this : Hex) (W H : Z) :
  fst (computeSize (with_options (set_transpose true (_options this)) this)
                   (IZR W) (IZR H))
  = fst (computeSize (with_options (set_transpose false (_options this)) this)
                     (IZR H) (IZR W)).
Proof.
  unfold computeSize, with_options, set_transpose.
  cbn [_options transpose _spacingX _spacingY _hexSize fst].
  replace (IZR W + IZR H - (IZR W + IZR H - IZR H)) with (IZR H) by ring.
  replace (IZR W + IZR H - IZR H) with (IZR W) by ring.
  reflexivity.
Qed.

(** C3 as stated fails: for a box of 100 by 200 and circumradius 10 the
    transposed backend answers [[22, 6]], which is what the other answers
    for 200 by 100, and not that pair with its components exchanged. *)
Lemma computeSize_transpose_not_swapped :
  fst (computeSize (ten_by_ten true) 100 200) = (22, 6)%Z
  /\ fst (computeSize (ten_by_ten false) 200 100) = (22, 6)%Z
  /\ fst (computeSize (ten_by_ten true) 100 200)
     <> swap (fst (computeSize (ten_by_ten false) 200 100)).
Proof.
  split; [exact computeSize_ten_by_ten_transposed|].
  split; [exact computeSize_ten_by_ten|].
  rewrite computeSize_ten_by_ten_transposed, computeSize_ten_by_ten.
  unfold swap; simpl. congruence.
Qed.


(** ** [eventToPosition] *)


Lemma Rgeb_true (a b : number) : a >= b -> Rgeb a b = true.
Proof. intros H. unfold Rgeb. destruct (Rge_dec a b); [reflexivity | contradiction]. Qed.

(** [eventToPosition] is [eventToPosition_with] at the exact operations. *)
Lemma eventToPosition_exact
    (T : Type) (ctx_of : T -> CanvasRenderingContext2D)
    (variant : T -> number -> number -> (Z * Z) * T)
    (this : T) (rect : DOMRect.t) (x y : number) :
  eventToPosition T ctx_of variant this rect x y
  = eventToPosition_with Rminus Rmult Rdiv T ctx_of variant this rect x y.
Proof. reflexivity. Qed.



(** Inside the canvas the answer is the variant's: for [Hex], that of
    [_normalizedEventToPosition] at the scaled point. *)
Lemma Hex_eventToPosition_inside (this : Hex) (rect : DOMRect.t) (x y : number) :
  let x' := (x - DOMRect.left rect)
            * (IZR (canvas_width (_ctx this)) / DOMRect.width rect) in
  let y' := (y - DOMRect.top rect)
            * (IZR (canvas_height (_ctx this)) / DOMRect.height rect) in
  0 <= x' < IZR (canvas_width (_ctx this)) ->
  0 <= y' < IZR (canvas_height (_ctx this)) ->
  Hex_eventToPosition this rect x y = (_normalizedEventToPosition this x' y', this).
Proof.
  intros x' y' Hx Hy. unfold Hex_eventToPosition, eventToPosition.
  fold x' y'. unfold Rltb, Rgeb.
  destruct (Rlt_dec x' 0); [lra|].
  destruct (Rlt_dec y' 0); [lra|].
  destruct (Rge_dec x' (IZR (canvas_width (_ctx this)))); [lra|].
  destruct (Rge_dec y' (IZR (canvas_height (_ctx this)))); [lra|].
  reflexivity.
Qed.

(** On the far edge the rounding decides.  With a rect 47 wide over a
    canvas 96 wide, the point at 47 scales to 96 exactly and is outside;
    a product that rounds to 95.99999999999999, as the double-precision
    one does, puts it inside, and the mapping answers column 10. *)
Lemma far_edge_goes_by_rounding (sub mul div : number -> number -> number) :
  mul (sub 47 0) (div (IZR 96) 47) = 95.99999999999999 ->
  mul (sub 0 0) (div (IZR 155) 155) = 0 ->
  eventToPosition_with sub mul div Hex _ctx
    (fun this x y => (_normalizedEventToPosition this x y, this))
    (ten_by_ten false) (DOMRect.make 0 0 47 155) 47 0
  = ((10, 0)%Z, ten_by_ten false)
  /\ Hex_eventToPosition (ten_by_ten false) (DOMRect.make 0 0 47 155) 47 0
     = ((-1, -1)%Z, ten_by_ten false).
Proof.
  intros Hx Hy.
  assert (B := sqrt3_bounds).
  split.
  - unfold eventToPosition_with.
    cbn [DOMRect.left DOMRect.top DOMRect.width DOMRect.height ten_by_ten
         hex_of_radius _ctx canvas_width canvas_height].
    rewrite Hx, Hy. unfold Rltb, Rgeb.
    destruct (Rlt_dec 95.99999999999999 0); [lra|].
    destruct (Rlt_dec 0 0); [lra|].
    destruct (Rge_dec 95.99999999999999 96); [lra|].
    destruct (Rge_dec 0 155); [lra|].
    cbn [orb]. f_equal.
    unfold _normalizedEventToPosition, hex_of_radius.
    cbn [_options _ctx transpose height canvas_height _spacingX].
    assert (Row : Math_floor (0 / (155 / 10)) = 0%Z) by floor_is.
    rewrite Row. cbn [util_mod Z.rem Z.eqb].
    rewrite (floor_div_eq 5); [reflexivity | lra | lra].
  - unfold Hex_eventToPosition, eventToPosition.
    cbn [DOMRect.left DOMRect.top DOMRect.width DOMRect.height ten_by_ten
         hex_of_radius _ctx canvas_width canvas_height].
    rewrite (Rgeb_true ((47 - 0) * (96 / 47)) 96) by lra.
    rewrite orb_true_r. reflexivity.
Qed.

(** C10. The column [_normalizedEventToPosition] answers has the parity of
    the row it answers: on an odd row it is [1 + 2k], on an even row
    [2k]. *)
Theorem normalizedEventToPosition_parity (this : Hex) (x y : number) :
  0 <= x < IZR (canvas_width (_ctx this)) ->
  0 <= y < IZR (canvas_height (_ctx this)) ->
  height (_options this) <> 0 ->
  _spacingX this <> 0 ->
  let col := fst (_normalizedEventToPosition this x y) in
  let row := snd (_normalizedEventToPosition this x y) in
  Z.odd col = Z.odd row
  /\ (Z.odd row = true -> exists k : Z, col = (1 + 2 * k)%Z)
  /\ (Z.even row = true -> exists k : Z, col = (2 * k)%Z).
Proof.
  intros _ _ _ _.
  unfold _normalizedEventToPosition.
  destruct (transpose (_options this)); cbv zeta.
  all: match goal with
       | |- context [util_mod ?r 2] =>
           rewrite (util_mod_2 r); set (row := r);
           destruct (Z.even row) eqn:E
       end; cbn [fst snd].
  all: try (assert (O : Z.odd row = false)
              by (rewrite <- Z.negb_even, E; reflexivity)).
  all: try (assert (O : Z.odd row = true)
              by (rewrite <- Z.negb_even, E; reflexivity)).
  all: rewrite ?E, ?O.
  all: match goal with
       | |- context [(2 * ?q)%Z] => set (k := q)
       end.
  all: split; [| split; intros D; try discriminate; exists k; reflexivity].
  - rewrite Z.odd_mul. reflexivity.
  - rewrite Z.odd_add_mul_2. reflexivity.
  - rewrite Z.odd_mul. reflexivity.
  - rewrite Z.odd_add_mul_2. reflexivity.
Qed.

Lemma normalizedEventToPosition_parity_witness :
  0 <= 20 < IZR (canvas_width (_ctx (ten_by_ten false)))
  /\ 0 <= 30 < IZR (canvas_height (_ctx (ten_by_ten false)))
  /\ Z.odd (fst (_normalizedEventToPosition (ten_by_ten false) 20 30))
     = Z.odd (snd (_normalizedEventToPosition (ten_by_ten false) 20 30)).
Proof.
  assert (B := sqrt3_bounds).
  split; [simpl; lra|]. split; [simpl; lra|].
  apply (normalizedEventToPosition_parity (ten_by_ten false) 20 30).
  - simpl; lra.
  - simpl; lra.
  - simpl; lra.
  - simpl; lra.
Defined.

(** ** [draw] *)

Lemma calls_issue_all (ds : list DrawCall) (c : CanvasRenderingContext2D) :
  calls (fold_left (fun c d => issue d c) ds c) = calls c ++ ds.
Proof.
  revert c. induction ds as [|d ds IH]; intros c; simpl.
  - now rewrite app_nil_r.
  - rewrite IH. simpl. now rewrite <- app_assoc.
Qed.

Lemma fillStyle_issue_all (ds : list DrawCall) (c : CanvasRenderingContext2D) :
  fillStyle (fold_left (fun c d => issue d c) ds c) = fillStyle c.
Proof.
  revert c. induction ds as [|d ds IH]; intros c; simpl; [reflexivity|].
  now rewrite IH.
Qed.

Lemma calls_fill (this : Hex) (cx cy : number) :
  calls (_ctx (_fill this cx cy))
  = calls (_ctx this)
    ++ beginPath :: hexagon this cx cy ++ [fill (fillStyle (_ctx this))].
Proof.
  unfold _fill, ctx_fill; simpl.
  rewrite calls_issue_all, fillStyle_issue_all; simpl.
  rewrite <- !app_assoc. reflexivity.
Qed.

Lemma calls_draw_chars (chars : list string) (px : number * number)
    (c : CanvasRenderingContext2D) :
  calls (draw_chars chars px c)
  = calls c
    ++ map (fun g => fillText (fillStyle c) g (fst px) (IZR (Math_ceil (snd px))))
           chars.
Proof.
  revert c. induction chars as [|g chars IH]; intros c; simpl.
  - now rewrite app_nil_r.
  - rewrite IH. simpl. now rewrite <- app_assoc.
Qed.

(** C8, as the code has it. With no glyph and no clearing [draw] leaves
    the backend untouched; with no glyph and clearing it only fills the
    hexagon of the cell with the cell's background.  In general the calls
    it issues are that optional fill followed by one [fillText] per glyph,
    in the order of [chars], all in the cell's foreground and all at the
    same point: the centre of the cell with its second coordinate rounded
    up to an integer. *)
Theorem draw_calls (this : Hex) (x y : number) (chars fgs bgs : list string)
    (ch : option (string + list string)) (fg bg : string) (clearBefore : bool) :
  let px := cell_px this x y in
  draw this (DisplayData.make x y [] fgs bgs ch fg bg) false = this
  /\ draw this (DisplayData.make x y [] fgs bgs ch fg bg) true
     = _fill (with_ctx (set_fillStyle bg (_ctx this)) this) (fst px) (snd px)
  /\ calls (_ctx (draw this (DisplayData.make x y chars fgs bgs ch fg bg) clearBefore))
     = calls (_ctx this)
       ++ (if clearBefore
           then beginPath :: hexagon this (fst px) (snd px) ++ [fill bg]
           else [])
       ++ map (fun g => fillText fg g (fst px) (IZR (Math_ceil (snd px)))) chars.
Proof.
  intros px. split; [reflexivity|]. split; [reflexivity|].
  unfold draw. cbn [DisplayData.x DisplayData.y DisplayData.chars
                    DisplayData.fg DisplayData.bg].
  fold px.
  destruct chars as [|g chars].
  - cbn [List.length Nat.eqb map]. rewrite app_nil_r.
    destruct clearBefore.
    + rewrite calls_fill. reflexivity.
    + now rewrite app_nil_r.
  - cbn [List.length Nat.eqb].
    destruct clearBefore.
    + cbn [_ctx with_ctx]. rewrite calls_draw_chars.
      cbn [calls set_fillStyle fillStyle].
      rewrite calls_fill. cbn [_ctx with_ctx calls set_fillStyle fillStyle].
      rewrite <- !app_assoc. reflexivity.
    + cbn [_ctx with_ctx]. rewrite calls_draw_chars. reflexivity.
Qed.

(** C8 as stated fails in its last part: at circumradius 9 the centre of
    cell (1, 1) is at height 22.5, and its glyph is drawn at height 23. *)
Lemma draw_glyph_not_at_centre :
  snd (cell_px radius_nine 1 1) = 22.5
  /\ calls (_ctx (draw radius_nine (at_sign 1 1) false))
     = [fillText "#fff" "@" (fst (cell_px radius_nine 1 1)) 23]
  /\ calls (_ctx (draw radius_nine (at_sign 1 1) false))
     <> [fillText "#fff" "@" (fst (cell_px radius_nine 1 1))
                             (snd (cell_px radius_nine 1 1))].
Proof.
  assert (P : snd (cell_px radius_nine 1 1) = 22.5).
  { unfold cell_px, radius_nine, hex_of_radius; simpl. lra. }
  assert (C : Math_ceil (snd (cell_px radius_nine 1 1)) = 23%Z).
  { rewrite P. ceil_is. }
  assert (D : calls (_ctx (draw radius_nine (at_sign 1 1) false))
              = [fillText "#fff" "@" (fst (cell_px radius_nine 1 1)) 23]).
  { unfold draw, at_sign.
    cbn [DisplayData.x DisplayData.y DisplayData.chars DisplayData.fg
         DisplayData.bg List.length Nat.eqb _ctx with_ctx].
    rewrite calls_draw_chars, C. reflexivity. }
  split; [exact P|]. split; [exact D|].
  rewrite D, P. intros H. injection H as H. lra.
Qed.

(** ** [setOptions] *)

Lemma options_updateSize (measureText : Font -> string -> number) (this : Hex) :
  _options (_updateSize measureText this) = _options this.
Proof.
  unfold _updateSize; simpl.
  destruct (transpose (_options this)); reflexivity.
Qed.

Lemma options_Backend_setOptions (D : BaseDefaults) (b : Backend) (opts : HexOptions) :
  _options (snd (Backend_setOptions D b opts)) = defaultedOptions D opts.
Proof. destruct b; reflexivity. Qed.

Lemma options_setOptions (D : BaseDefaults) (measureText : Font -> string -> number)
    (b : Backend) (opts : HexOptions) :
  _options (snd (setOptions D measureText b opts)) = defaultedOptions D opts.
Proof.
  unfold setOptions, BaseCanvas_setOptions.
  assert (H := options_Backend_setOptions D b opts).
  destruct (Backend_setOptions D b opts) as [r this]. simpl in H.
  cbv beta iota zeta.
  destruct r; cbn [orb snd].
  - cbn [_options with_ctx]. rewrite !options_updateSize. exact H.
  - match goal with |- context [if ?c then _ else _] => destruct c end;
      cbn [_options with_ctx]; rewrite ?options_updateSize; exact H.
Qed.

Lemma defaultedOptions_given (D : BaseDefaults) (o : RequiredHexOptions) :
  defaultedOptions D (given o) = o.
Proof. destruct o; reflexivity. Qed.

Lemma Backend_setOptions_settled (D : BaseDefaults) (this : Hex) (opts : HexOptions) :
  defaultedOptions D opts = _options this ->
  fst (Backend_setOptions D (Configured this) opts) = false.
Proof.
  intros E. unfold Backend_setOptions. cbn [fst prior strict_ne]. rewrite E.
  now rewrite !number_ne_same, !string_ne_same.
Qed.

Lemma setOptions_answer (D : BaseDefaults) (measureText : Font -> string -> number)
    (b : Backend) (opts : HexOptions) :
  fst (setOptions D measureText b opts)
  = (fst (Backend_setOptions D b opts)
     || strict_ne number_ne (prior fontSize b) (fontSize' opts)
     || strict_ne string_ne (prior fontFamily b) (fontFamily' opts)
     || strict_ne number_ne (prior spacing b) (spacing' opts))%bool.
Proof.
  unfold setOptions, BaseCanvas_setOptions.
  destruct (Backend_setOptions D b opts) as [r this]. reflexivity.
Qed.

(** C1. [setOptions] asks for a repaint exactly when the base does or when
    [fontSize], [fontFamily] or [spacing] of the options differs from the
    prior effective options; called with the options in force it answers
    [false]; and on the scenario's options a backend without prior options
    answers [true], then [false] when they are given again. *)
Theorem setOptions_needsRepaint
    (D : BaseDefaults) (measureText : Font -> string -> number) :
  (forall (b : Backend) (opts : HexOptions),
     fst (setOptions D measureText b opts)
     = (fst (Backend_setOptions D b opts)
        || strict_ne number_ne (prior fontSize b) (fontSize' opts)
        || strict_ne string_ne (prior fontFamily b) (fontFamily' opts)
        || strict_ne number_ne (prior spacing b) (spacing' opts))%bool)
  /\ (forall this : Hex,
        fst (setOptions D measureText (Configured this) (given (_options this)))
        = false)
  /\ (forall ctx : CanvasRenderingContext2D,
        fst (setOptions D measureText (Uninitialized ctx) scenario) = true
        /\ fst (setOptions D measureText
                  (Configured (snd (setOptions D measureText (Uninitialized ctx) scenario)))
                  scenario) = false).
Proof.
  split; [|split].
  - intros b opts. apply setOptions_answer.
  - intros this. rewrite setOptions_answer.
    rewrite Backend_setOptions_settled by apply defaultedOptions_given.
    simpl. now rewrite !number_ne_same, !string_ne_same.
  - intros ctx. split.
    + rewrite setOptions_answer. reflexivity.
    + rewrite setOptions_answer.
      rewrite Backend_setOptions_settled by (now rewrite options_setOptions).
      cbn [prior]. rewrite options_setOptions. simpl.
      now rewrite !number_ne_same, !string_ne_same.
Qed.

(** ** The centre of a cell *)

Lemma ceil_half (n : Z) :
  IZR n / 2 <= IZR (Math_ceil (IZR n / 2)) <= IZR n / 2 + 1 / 2.
Proof.
  unfold Math_ceil.
  destruct (Zceil_bound (IZR n / 2)) as [Hlo Hhi].
  split; [exact Hhi|].
  set (k := Zceil (IZR n / 2)) in *.
  assert (Hz : (2 * k - 2 < n)%Z).
  { apply lt_IZR. rewrite minus_IZR, mult_IZR. lra. }
  assert (Hz' : (2 * k <= n + 1)%Z) by lia.
  apply IZR_le in Hz'. rewrite mult_IZR, plus_IZR in Hz'. lra.
Qed.

Lemma row_of_centre (a rows r : Z) :
  (1 <= a)%Z -> (0 <= r < rows)%Z ->
  Math_floor
    ((IZR r * (IZR a * 1.5) + IZR a)
     / (IZR (Math_ceil ((IZR rows - 1) * (IZR a * 1.5) + 2 * IZR a)) / IZR rows))
  = r.
Proof.
  intros Ha [Hr0 Hr1].
  assert (A : 1 <= IZR a) by (apply IZR_le; exact Ha).
  assert (R0 : 0 <= IZR r) by (apply IZR_le; exact Hr0).
  assert (R1 : IZR r + 1 <= IZR rows).
  { rewrite <- plus_IZR. apply IZR_le. lia. }
  replace ((IZR rows - 1) * (IZR a * 1.5) + 2 * IZR a)
    with (IZR (a * (3 * rows + 1)) / 2)
    by (rewrite mult_IZR, plus_IZR, mult_IZR; lra).
  destruct (ceil_half (a * (3 * rows + 1))) as [Klo Khi].
  set (K := IZR (Math_ceil (IZR (a * (3 * rows + 1)) / 2))) in *.
  rewrite mult_IZR, plus_IZR, mult_IZR in Klo, Khi.
  assert (Kpos : 0 < K) by nra.
  assert (Dpos : 0 < K / IZR rows).
  { apply Rdiv_lt_0_compat; lra. }
  apply floor_div_eq; [exact Dpos|].
  assert (E : K / IZR rows * IZR rows = K) by (field; lra).
  set (d := K / IZR rows) in *.
  split.
  - apply Rmult_le_reg_r with (IZR rows); [lra|].
    rewrite Rmult_assoc, E. nra.
  - apply Rmult_lt_reg_r with (IZR rows); [lra|].
    rewrite Rmult_assoc, E. nra.
Qed.

Lemma column_on_even_row (c : Z) (sx : number) :
  0 < sx -> Z.even c = true ->
  (2 * Math_floor ((IZR c + 1) * sx / (2 * sx)))%Z = c.
Proof.
  intros Hs E. apply Z.even_spec in E. destruct E as [k ->].
  rewrite (floor_div_eq k); [reflexivity | lra |].
  rewrite mult_IZR. split; nra.
Qed.

Lemma column_on_odd_row (c : Z) (sx : number) :
  0 < sx -> Z.even c = false ->
  (1 + 2 * Math_floor (((IZR c + 1) * sx - sx) / (2 * sx)))%Z = c.
Proof.
  intros Hs E.
  assert (O : Z.odd c = true) by (rewrite <- Z.negb_even, E; reflexivity).
  apply Z.odd_spec in O. destruct O as [k ->].
  rewrite (floor_div_eq k); [lia | lra |].
  rewrite plus_IZR, mult_IZR. split; nra.
Qed.

(** How the mapping works: the row is the vertical position over the
    height of one row, and an odd row takes one [spacingX] off the
    horizontal position before the division an even row applies. *)
Lemma normalizedEventToPosition_by_rows (this : Hex) (x y : number) :
  transpose (_options this) = false ->
  let row :=
    Math_floor (y / (IZR (canvas_height (_ctx this)) / height (_options this))) in
  _normalizedEventToPosition this x y
  = (if Z.even row
     then (2 * Math_floor (x / (2 * _spacingX this)))%Z
     else (1 + 2 * Math_floor ((x - _spacingX this) / (2 * _spacingX this)))%Z,
     row).
Proof.
  intros Ht row. unfold _normalizedEventToPosition. rewrite Ht.
  cbv zeta. fold row. now rewrite util_mod_2.
Qed.

(** C5, as the code has it. On a backend whose geometry [_updateSize] has
    derived, with a circumradius of at least 1 and [rows] rows, the centre
    [draw] uses for the cell in column [c] and row [r], [0 <= r < rows],
    maps back to [(c, r)] whenever [c] and [r] have the same parity, with
    or without transposition. *)
Theorem centre_round_trip
    (measureText : Font -> string -> number) (this0 : Hex) (c r rows : Z) :
  let this := _updateSize measureText this0 in
  (1 <= _hexSize this)%Z ->
  height (_options this0) = IZR rows ->
  (0 <= r < rows)%Z ->
  Z.even c = Z.even r ->
  let px := cell_px this (IZR c) (IZR r) in
  _normalizedEventToPosition this (fst px) (snd px) = (c, r).
Proof.
  intros this Ha Hrows Hr Hpar px.
  assert (B := sqrt3_bounds).
  set (a := _hexSize this) in *.
  assert (Ho : _options this = _options this0) by apply options_updateSize.
  assert (Hsx : _spacingX this = IZR a * Math_sqrt 3 / 2).
  { unfold a, this, _updateSize; simpl. destruct (transpose (_options this0)); reflexivity. }
  assert (Hsy : _spacingY this = IZR a * 1.5).
  { unfold a, this, _updateSize; simpl. destruct (transpose (_options this0)); reflexivity. }
  assert (A : 1 <= IZR a) by (apply IZR_le; exact Ha).
  assert (Sx : 0 < _spacingX this) by (rewrite Hsx; nra).
  assert (Hnode :
    (if transpose (_options this0)
     then canvas_width (_ctx this) else canvas_height (_ctx this))
    = Math_ceil ((IZR rows - 1) * (IZR a * 1.5) + 2 * IZR a)).
  { rewrite <- Hrows. unfold a, this, _updateSize; simpl.
    destruct (transpose (_options this0)); reflexivity. }
  assert (Row := row_of_centre a rows r Ha Hr).
  unfold _normalizedEventToPosition, px, cell_px.
  rewrite Ho, Hrows.
  destruct (transpose (_options this0)); cbn [fst snd]; cbv zeta.
  all: change (_hexSize this) with a; rewrite Hnode, Hsy.
  - replace (IZR r * (IZR a * 1.5) + IZR a + (IZR c + 1) * _spacingX this
             - (IZR c + 1) * _spacingX this)
      with (IZR r * (IZR a * 1.5) + IZR a) by ring.
    replace (IZR r * (IZR a * 1.5) + IZR a + (IZR c + 1) * _spacingX this
             - (IZR r * (IZR a * 1.5) + IZR a))
      with ((IZR c + 1) * _spacingX this) by ring.
    rewrite Row, util_mod_2, <- Hpar.
    destruct (Z.even c) eqn:E.
    + now rewrite column_on_even_row.
    + now rewrite column_on_odd_row.
  - rewrite Row, util_mod_2, <- Hpar.
    destruct (Z.even c) eqn:E.
    + now rewrite column_on_even_row.
    + now rewrite column_on_odd_row.
Qed.

(** ** The scenario, run *)

Lemma div_between (x d lo hi : number) :
  0 < d -> lo * d <= x <= hi * d -> lo <= x / d <= hi.
Proof.
  intros Hd [Hlo Hhi]. split.
  - apply Rmult_le_reg_r with d; [exact Hd|].
    unfold Rdiv. rewrite Rmult_assoc, Rinv_l by lra. lra.
  - apply Rmult_le_reg_r with d; [exact Hd|].
    unfold Rdiv. rewrite Rmult_assoc, Rinv_l by lra. lra.
Qed.

Lemma number_ne_diff (a b : number) : a <> b -> number_ne a b = true.
Proof. intros H. unfold number_ne. destruct (Req_dec_T a b); [contradiction | reflexivity]. Qed.

(** [_updateSize] overwrites the geometry and the canvas size with what it
    derives from the options and the measured width. *)
Lemma updateSize_hex_of_radius (t : bool) (px : number) (a0 w0 h0 cw a w h : Z) :
  Math_ceil (0.6 * px) = cw ->
  Math_floor (1 * (px + IZR cw / Math_sqrt 3) / 2) = a ->
  Math_ceil ((10 + 1) * (IZR a * Math_sqrt 3 / 2)) = w ->
  Math_ceil ((10 - 1) * (IZR a * 1.5) + 2 * IZR a) = h ->
  _updateSize fixed_pitch (hex_of_radius t px a0 w0 h0)
  = hex_of_radius t px a (if t then h else w) (if t then w else h).
Proof.
  intros Hcw Ha Hw Hh.
  unfold _updateSize, hex_of_radius, fixed_pitch.
  cbn [_options _ctx font font_px spacing fontSize width height transpose
       _spacingX _spacingY _hexSize].
  rewrite Hcw, Ha, Hw, Hh.
  destruct t; reflexivity.
Qed.

Lemma radius_at_15 (t : bool) (a0 w0 h0 : Z) :
  _updateSize fixed_pitch (hex_of_radius t 15 a0 w0 h0) = ten_by_ten t.
Proof.
  assert (B := sqrt3_bounds).
  rewrite (updateSize_hex_of_radius t 15 a0 w0 h0 9 10 96 155).
  - destruct t; reflexivity.
  - ceil_is.
  - assert (Q := div_between 9 (Math_sqrt 3) 5 6 ltac:(lra) ltac:(lra)).
    floor_is.
  - ceil_is.
  - ceil_is.
Qed.

Lemma radius_at_46 (a0 w0 h0 : Z) :
  _updateSize fixed_pitch (hex_of_radius false 46 a0 w0 h0)
  = hex_of_radius false 46 31 296 481.
Proof.
  assert (B := sqrt3_bounds).
  rewrite (updateSize_hex_of_radius false 46 a0 w0 h0 28 31 296 481).
  - reflexivity.
  - ceil_is.
  - assert (Q := div_between 28 (Math_sqrt 3) 16 17 ltac:(lra) ltac:(lra)).
    floor_is.
  - ceil_is.
  - ceil_is.
Qed.

Lemma radius_at_14 (a0 w0 h0 : Z) :
  _updateSize fixed_pitch (hex_of_radius false 14 a0 w0 h0) = radius_nine.
Proof.
  assert (B := sqrt3_bounds).
  rewrite (updateSize_hex_of_radius false 14 a0 w0 h0 9 9 86 140).
  - reflexivity.
  - ceil_is.
  - assert (Q := div_between 9 (Math_sqrt 3) 5 5.5 ltac:(lra) ltac:(lra)).
    floor_is.
  - ceil_is.
  - ceil_is.
Qed.

(** The scenario's options, given to a backend without prior options, ask
    for a repaint and leave the geometry [_updateSize] derives under the
    font they name. *)
Lemma fresh_scenario (t : bool) (px : number) :
  setOptions rot_DEFAULTS fixed_pitch (Uninitialized blank_ctx) (scenario_with t px)
  = (true, _updateSize fixed_pitch (hex_of_radius t px 0 0 0)).
Proof.
  unfold setOptions, BaseCanvas_setOptions, Backend_setOptions.
  cbn [prior strict_ne orb fst snd].
  cbv beta iota zeta.
  destruct t; reflexivity.
Qed.

(** At 15 pixels that is [ten_by_ten], at 14 pixels [radius_nine]. *)
Lemma scenario_configures (t : bool) :
  setOptions rot_DEFAULTS fixed_pitch (Uninitialized blank_ctx) (scenario_with t 15)
  = (true, ten_by_ten t).
Proof. now rewrite fresh_scenario, radius_at_15. Qed.

Lemma scenario_at_14_configures :
  setOptions rot_DEFAULTS fixed_pitch (Uninitialized blank_ctx) (scenario_with false 14)
  = (true, radius_nine).
Proof. now rewrite fresh_scenario, radius_at_14. Qed.

(** Asking the configured backend for a font of 46 pixels leads to a
    circumradius of 31 on a canvas of 296 by 481. *)
Lemma refit_at_46 :
  setOptions rot_DEFAULTS fixed_pitch (Configured (ten_by_ten false))
    (scenario_with false 46)
  = (true, hex_of_radius false 46 31 296 481).
Proof.
  rewrite <- (radius_at_46 10 96 155).
  unfold setOptions, BaseCanvas_setOptions, Backend_setOptions.
  cbn [prior strict_ne fst snd ten_by_ten hex_of_radius _options
       width height layout fg bg fontSize fontFamily spacing
       defaultedOptions scenario_with or_default DEFAULTS rot_DEFAULTS
       width' height' layout' fg' bg' fontSize' fontFamily' spacing'
       DEFAULTS_width DEFAULTS_height DEFAULTS_layout DEFAULTS_fg DEFAULTS_bg].
  rewrite !number_ne_same, !string_ne_same.
  rewrite (number_ne_diff 15 46) by lra.
  reflexivity.
Qed.

Lemma centre_round_trip_witness :
  (1 <= _hexSize (_updateSize fixed_pitch (ten_by_ten false)))%Z
  /\ height (_options (ten_by_ten false)) = IZR 10
  /\ (0 <= 4 < 10)%Z
  /\ Z.even 2 = Z.even 4
  /\ let this := _updateSize fixed_pitch (ten_by_ten false) in
     let px := cell_px this (IZR 2) (IZR 4) in
     _normalizedEventToPosition this (fst px) (snd px) = (2, 4)%Z.
Proof.
  assert (A : (1 <= _hexSize (_updateSize fixed_pitch (ten_by_ten false)))%Z).
  { unfold ten_by_ten. rewrite radius_at_15. simpl. lia. }
  split; [exact A|]. split; [reflexivity|]. split; [lia|]. split; [reflexivity|].
  apply (centre_round_trip fixed_pitch (ten_by_ten false) 2 4 10).
  - exact A.
  - reflexivity.
  - lia.
  - reflexivity.
Defined.

(** C5 as stated fails: in the grid of the scenario the centre of cell
    (1, 0), whose column and row differ in parity, maps to (2, 0). *)
Lemma centre_of_odd_cell_maps_elsewhere :
  let this := ten_by_ten false in
  let px := cell_px this 1 0 in
  _normalizedEventToPosition this (fst px) (snd px) = (2, 0)%Z
  /\ _normalizedEventToPosition this (fst px) (snd px) <> (1, 0)%Z.
Proof.
  assert (B := sqrt3_bounds).
  assert (E : _normalizedEventToPosition (ten_by_ten false)
                (fst (cell_px (ten_by_ten false) 1 0))
                (snd (cell_px (ten_by_ten false) 1 0)) = (2, 0)%Z).
  { unfold _normalizedEventToPosition, cell_px, ten_by_ten, hex_of_radius.
    cbn [_options _ctx transpose height canvas_height _spacingX _spacingY
         _hexSize fst snd].
    assert (Row : Math_floor ((0 * (10 * 1.5) + 10) / (155 / 10)) = 0%Z).
    { floor_is. }
    rewrite Row. cbn [util_mod Z.rem Z.eqb].
    rewrite (floor_div_eq 1); [reflexivity | lra | lra]. }
  cbv zeta. split; [exact E|]. rewrite E. congruence.
Qed.

(** ** The fitted font *)

Lemma computeFontSize_ten_by_ten :
  fst (computeFontSize fixed_pitch (ten_by_ten false) 640 480) = 46%Z.
Proof.
  assert (B := sqrt3_bounds).
  unfold computeFontSize, ten_by_ten, hex_of_radius, fixed_pitch.
  cbn [_options _ctx transpose width height fontFamily spacing font font_px
       with_ctx set_font fst].
  assert (Hw : 60 <= 2 * 640 / ((10 + 1) * Math_sqrt 3) - 1).
  { assert (Q := div_between (2 * 640) ((10 + 1) * Math_sqrt 3) 61 70
                   ltac:(lra) ltac:(lra)). lra. }
  assert (Hh : 30 <= 480 / (2 + 1.5 * (10 - 1)) < 31).
  { replace (2 + 1.5 * (10 - 1)) with 15.5 by lra. lra. }
  unfold Math_min. rewrite Rmin_right by lra.
  assert (F : Math_floor (480 / (2 + 1.5 * (10 - 1))) = 30%Z).
  { floor_is. }
  assert (C : Math_ceil (0.6 * 100) = 60%Z).
  { ceil_is. }
  rewrite F, C.
  assert (Q := div_between (60 / 100) (Math_sqrt 3) 0.3464 0.34643
                 ltac:(lra) ltac:(lra)).
  rewrite (ceil_div_eq 47); [reflexivity | lra |].
  change (IZR (30 + 1)) with 31. lra.
Qed.

(** C2 fails on the code. For ten by ten cells in a box of 640 by 480 and
    a face whose glyphs advance 0.6 em, [computeFontSize] answers 46; the
    geometry derived from a font of 46 pixels has circumradius 31, under
    which [computeSize] answers 9 rows for the same box and the ten rows
    take 481 pixels. *)
Theorem fitted_font_overflows :
  fst (computeFontSize fixed_pitch (ten_by_ten false) 640 480) = 46%Z
  /\ let refit :=
       snd (setOptions rot_DEFAULTS fixed_pitch (Configured (ten_by_ten false))
              (scenario_with false (IZR 46))) in
     _hexSize refit = 31%Z
     /\ fst (computeSize refit 640 480) = (22, 9)%Z
     /\ canvas_width (_ctx refit) = 296%Z
     /\ canvas_height (_ctx refit) = 481%Z.
Proof.
  assert (B := sqrt3_bounds).
  split; [exact computeFontSize_ten_by_ten|].
  rewrite refit_at_46. cbn [snd]. cbv zeta.
  split; [reflexivity|]. split; [|split; reflexivity].
  unfold computeSize, hex_of_radius.
  cbn [_options transpose _spacingX _spacingY _hexSize fst].
  f_equal.
  - rewrite (floor_div_eq 23); [reflexivity | lra | lra].
  - floor_is.
Qed.

Lemma lt_div_mul (x d y : number) : 0 < d -> y < x / d -> y * d < x.
Proof.
  intros Hd H. apply Rmult_lt_compat_r with (r := d) in H; [|exact Hd].
  replace (x / d * d) with x in H by (field; lra). exact H.
Qed.

Lemma le_div_mul (x d y : number) : 0 < d -> y <= x / d -> y * d <= x.
Proof.
  intros Hd H. apply Rmult_le_compat_r with (r := d) in H; [|lra].
  replace (x / d * d) with x in H by (field; lra). exact H.
Qed.

Lemma mul_le_div (x d y : number) : 0 < d -> y * d <= x -> y <= x / d.
Proof.
  intros Hd H. apply Rmult_le_reg_r with d; [exact Hd|].
  replace (x / d * d) with x by (field; lra). exact H.
Qed.

(** X13. What [computeFontSize] is after.  When the glyph measured at the
    fitted size, rounded up, is no wider than the ratio taken at 100
    pixels predicts, the circumradius derived from the fitted size is at
    most [floor(hexSize)], and the grid fits the box both ways.  The
    overflow above comes from the rounding of that width, 27.6 to 28. *)
Lemma fitted_font_fits_when_width_scales
    (measureText : Font -> string -> number) (this refit0 : Hex)
    (W H : number) (C R : Z) :
  transpose (_options this) = false ->
  width (_options this) = IZR C ->
  height (_options this) = IZR R ->
  (0 <= C)%Z -> (1 <= R)%Z ->
  0 < spacing (_options this) ->
  let F := fst (computeFontSize measureText this W H) in
  let ratio :=
    IZR (Math_ceil (measureText (mkFont "" 100 (fontFamily (_options this))) "W"))
    / 100 in
  _options refit0 = set_fontSize (IZR F) (_options this) ->
  0 <= ratio ->
  IZR (Math_ceil (measureText (font (_ctx refit0)) "W")) <= IZR F * ratio ->
  let refit := _updateSize measureText refit0 in
  (1 <= _hexSize refit)%Z ->
  (C <= fst (fst (computeSize refit W H)))%Z
  /\ (R <= snd (fst (computeSize refit W H)))%Z
  /\ (IZR C + 1) * _spacingX refit <= W
  /\ (IZR R - 1) * _spacingY refit + 2 * IZR (_hexSize refit) <= H.
Proof.
  intros Ht HC HR C0 R1 Hs F ratio Ho Hratio Hcw refit Ha.
  assert (B := sqrt3_bounds).
  assert (RC : 0 <= IZR C) by (apply IZR_le; exact C0).
  assert (RR : 1 <= IZR R) by (apply IZR_le; exact R1).
  (* the fitted size, from [computeFontSize] *)
  set (hs := Math_min (2 * W / ((IZR C + 1) * Math_sqrt 3) - 1)
                      (H / (2 + 1.5 * (IZR R - 1)))).
  set (D := spacing (_options this) * (1 + ratio / Math_sqrt 3)).
  assert (HF : F = (Math_ceil (2 * IZR (Math_floor hs + 1) / D) - 1)%Z).
  { unfold F, computeFontSize. rewrite Ht, HC, HR. reflexivity. }
  assert (Q : 0 <= ratio / Math_sqrt 3).
  { apply Rmult_le_pos; [exact Hratio|]. apply Rlt_le, Rinv_0_lt_compat. lra. }
  assert (Dpos : 0 < D) by (unfold D; nra).
  assert (HFlt : IZR F * D < 2 * IZR (Math_floor hs + 1)).
  { rewrite HF, minus_IZR. apply lt_div_mul; [exact Dpos|].
    apply (Zceil_bound (2 * IZR (Math_floor hs + 1) / D)). }
  (* the circumradius [_updateSize] derives from it *)
  set (cw := IZR (Math_ceil (measureText (font (_ctx refit0)) "W"))) in *.
  assert (Ea : _hexSize refit
               = Math_floor (spacing (_options this)
                             * (IZR F + cw / Math_sqrt 3) / 2)).
  { unfold refit, _updateSize. rewrite Ho. cbn [set_fontSize spacing fontSize transpose].
    destruct (transpose (_options this)); reflexivity. }
  assert (Esx : _spacingX refit = IZR (_hexSize refit) * Math_sqrt 3 / 2).
  { unfold refit, _updateSize. cbn [_spacingX with_ctx].
    destruct (transpose (_options refit0)); reflexivity. }
  assert (Esy : _spacingY refit = IZR (_hexSize refit) * 1.5).
  { unfold refit, _updateSize. cbn [_spacingY with_ctx].
    destruct (transpose (_options refit0)); reflexivity. }
  assert (Et : transpose (_options refit) = false).
  { unfold refit. rewrite options_updateSize, Ho. exact Ht. }
  set (a := _hexSize refit) in *.
  assert (A1 : 1 <= IZR a) by (apply IZR_le; exact Ha).
  assert (Hcw' : cw / Math_sqrt 3 <= IZR F * (ratio / Math_sqrt 3)).
  { unfold Rdiv. rewrite <- Rmult_assoc.
    apply Rmult_le_compat_r; [apply Rlt_le, Rinv_0_lt_compat; lra | exact Hcw]. }
  assert (Halt : IZR a < IZR (Math_floor hs + 1)).
  { destruct (Zfloor_bound (spacing (_options this)
                            * (IZR F + cw / Math_sqrt 3) / 2)) as [Lo _].
    fold (Math_floor (spacing (_options this) * (IZR F + cw / Math_sqrt 3) / 2)) in Lo.
    rewrite <- Ea in Lo. unfold D in HFlt. nra. }
  assert (Hak : IZR a <= hs).
  { apply lt_IZR in Halt.
    assert (Hz : (a <= Math_floor hs)%Z) by lia.
    apply IZR_le in Hz. destruct (Zfloor_bound hs) as [Lo _].
    fold (Math_floor hs) in Lo. lra. }
  assert (HW : IZR a <= 2 * W / ((IZR C + 1) * Math_sqrt 3) - 1).
  { eapply Rle_trans; [exact Hak | apply Rmin_l]. }
  assert (HH : IZR a <= H / (2 + 1.5 * (IZR R - 1))).
  { eapply Rle_trans; [exact Hak | apply Rmin_r]. }
  assert (FitW : (IZR a + 1) * ((IZR C + 1) * Math_sqrt 3) <= 2 * W).
  { apply le_div_mul; [nra | lra]. }
  assert (FitH : IZR a * (2 + 1.5 * (IZR R - 1)) <= H).
  { apply le_div_mul; [lra | exact HH]. }
  assert (Sx : 0 < _spacingX refit) by (rewrite Esx; nra).
  assert (Sy : 0 < _spacingY refit) by (rewrite Esy; lra).
  assert (PxW : (IZR C + 1) * _spacingX refit <= W) by (rewrite Esx; nra).
  assert (PxH : (IZR R - 1) * _spacingY refit + 2 * IZR a <= H) by (rewrite Esy; nra).
  split; [|split; [|split; [exact PxW | exact PxH]]].
  - unfold computeSize. rewrite Et. cbn [fst].
    assert (L : (C + 1 <= Math_floor (W / _spacingX refit))%Z).
    { apply Zfloor_lub. rewrite plus_IZR. apply mul_le_div; [exact Sx | exact PxW]. }
    lia.
  - unfold computeSize. rewrite Et. cbn [fst snd]. fold a.
    apply Zfloor_lub.
    assert (L : IZR R - 1 <= (H - 2 * IZR a) / _spacingY refit).
    { apply mul_le_div; [exact Sy | lra]. }
    lra.
Qed.

(** With glyphs of half an em and a box of 640 by 180 the premises hold:
    the fitted size is 18, its glyph is 9 wide, and the grid fits. *)
Lemma computeFontSize_half_em :
  fst (computeFontSize half_em (ten_by_ten false) 640 180) = 18%Z.
Proof.
  assert (B := sqrt3_bounds).
  unfold computeFontSize, ten_by_ten, hex_of_radius, half_em.
  cbn [_options _ctx transpose width height fontFamily spacing font font_px
       with_ctx set_font fst].
  assert (Hw : 60 <= 2 * 640 / ((10 + 1) * Math_sqrt 3) - 1).
  { assert (Q := div_between (2 * 640) ((10 + 1) * Math_sqrt 3) 61 70
                   ltac:(lra) ltac:(lra)). lra. }
  assert (Hh : 11 <= 180 / (2 + 1.5 * (10 - 1)) < 12).
  { replace (2 + 1.5 * (10 - 1)) with 15.5 by lra. lra. }
  unfold Math_min. rewrite Rmin_right by lra.
  assert (F : Math_floor (180 / (2 + 1.5 * (10 - 1))) = 11%Z).
  { floor_is. }
  assert (C : Math_ceil (0.5 * 100) = 50%Z).
  { ceil_is. }
  rewrite F, C.
  assert (Q := div_between (50 / 100) (Math_sqrt 3) 0.2886 0.2887
                 ltac:(lra) ltac:(lra)).
  rewrite (ceil_div_eq 19); [reflexivity | lra |].
  change (IZR (11 + 1)) with 12. lra.
Qed.

Lemma fitted_font_fits_half_em :
  let refit := _updateSize half_em (hex_of_radius false 18 10 96 155) in
  (10 <= fst (fst (computeSize refit 640 180)))%Z
  /\ (10 <= snd (fst (computeSize refit 640 180)))%Z
  /\ (10 + 1) * _spacingX refit <= 640
  /\ (10 - 1) * _spacingY refit + 2 * IZR (_hexSize refit) <= 180.
Proof.
  assert (B := sqrt3_bounds).
  assert (C9 : Math_ceil (0.5 * 18) = 9%Z).
  { ceil_is. }
  assert (C50 : Math_ceil (0.5 * 100) = 50%Z).
  { ceil_is. }
  apply (fitted_font_fits_when_width_scales half_em (ten_by_ten false)
           (hex_of_radius false 18 10 96 155) 640 180 10 10).
  - reflexivity.
  - reflexivity.
  - reflexivity.
  - lia.
  - lia.
  - simpl; lra.
  - rewrite computeFontSize_half_em. reflexivity.
  - unfold half_em; cbn [font_px]. rewrite C50. lra.
  - rewrite computeFontSize_half_em.
    unfold half_em, hex_of_radius; cbn [_ctx font font_px _options fontFamily ten_by_ten].
    rewrite C9, C50. lra.
  - unfold _updateSize, half_em, hex_of_radius.
    cbn [_options _ctx font font_px spacing fontSize transpose _hexSize with_ctx].
    rewrite C9. apply Zfloor_lub.
    assert (Q := div_between 9 (Math_sqrt 3) 5 6 ltac:(lra) ltac:(lra)). lra.
Defined.

(** * Further properties of the hexagonal backend *)

(** ** What [_updateSize] leaves *)

Lemma updateSize_geometry (measureText : Font -> string -> number) (this0 : Hex) :
  let this := _updateSize measureText this0 in
  _options this = _options this0
  /\ _spacingX this = IZR (_hexSize this) * Math_sqrt 3 / 2
  /\ _spacingY this = IZR (_hexSize this) * 1.5
  /\ columns_side this
     = Math_ceil ((width (_options this0) + 1) * _spacingX this)
  /\ rows_side this
     = Math_ceil ((height (_options this0) - 1) * _spacingY this
                  + 2 * IZR (_hexSize this)).
Proof.
  unfold columns_side, rows_side, _updateSize; cbn [_options _ctx with_ctx
    _spacingX _spacingY _hexSize].
  destruct (transpose (_options this0)); cbn; repeat split; reflexivity.
Qed.

Lemma updateSize_ten_by_ten (t : bool) :
  _updateSize fixed_pitch (ten_by_ten t) = ten_by_ten t.
Proof. destruct t; apply radius_at_15. Qed.

(** The mapping in terms of the position along the columns and along the
    rows, whichever canvas axis each is. *)
Lemma normalizedEventToPosition_core (this : Hex) (x y : number) :
  let u := along_columns this x y in
  let v := along_rows this x y in
  let row :=
    Math_floor (v / (IZR (rows_side this) / height (_options this))) in
  _normalizedEventToPosition this x y
  = (if Z.even row
     then (2 * Math_floor (u / (2 * _spacingX this)))%Z
     else (1 + 2 * Math_floor ((u - _spacingX this) / (2 * _spacingX this)))%Z,
     row).
Proof.
  unfold _normalizedEventToPosition, along_columns, along_rows, rows_side.
  destruct (transpose (_options this)); cbv zeta.
  - replace (x + y - (x + y - y)) with y by ring.
    replace (x + y - y) with x by ring.
    now rewrite util_mod_2.
  - now rewrite util_mod_2.
Qed.

(** The place of a cell's centre along the columns and along the rows. *)
Lemma cell_px_along (this : Hex) (c r : number) :
  along_columns this (fst (cell_px this c r)) (snd (cell_px this c r))
  = (c + 1) * _spacingX this
  /\ along_rows this (fst (cell_px this c r)) (snd (cell_px this c r))
     = r * _spacingY this + IZR (_hexSize this).
Proof.
  unfold along_columns, along_rows, cell_px.
  destruct (transpose (_options this)); split; reflexivity.
Qed.

Lemma in_bounds_along (this : Hex) (x y : number) :
  0 <= x < IZR (canvas_width (_ctx this)) ->
  0 <= y < IZR (canvas_height (_ctx this)) ->
  0 <= along_columns this x y < IZR (columns_side this)
  /\ 0 <= along_rows this x y < IZR (rows_side this).
Proof.
  unfold along_columns, along_rows, columns_side, rows_side.
  destruct (transpose (_options this)); tauto.
Qed.

(** The row band: for a position [v] along the rows of a canvas sized for
    [R] rows of circumradius [a], the row answered is a row of the grid
    and [v] lies between the top of that row's hexagons and half a pixel
    below their bottom. *)
Lemma row_band (a R : Z) (v : number) :
  (1 <= a)%Z -> (1 <= R)%Z ->
  let K := Math_ceil ((IZR R - 1) * (IZR a * 1.5) + 2 * IZR a) in
  0 <= v < IZR K ->
  let row := Math_floor (v / (IZR K / IZR R)) in
  (0 <= row < R)%Z
  /\ IZR row * (IZR a * 1.5) <= v < IZR row * (IZR a * 1.5) + 2 * IZR a + 1 / 2.
Proof.
  intros Ha HR K Hv row.
  assert (A : 1 <= IZR a) by (apply IZR_le; exact Ha).
  assert (RR : 1 <= IZR R) by (apply IZR_le; exact HR).
  assert (EK : (IZR R - 1) * (IZR a * 1.5) + 2 * IZR a
               = IZR (a * (3 * R + 1)) / 2).
  { rewrite mult_IZR, plus_IZR, mult_IZR. lra. }
  destruct (ceil_half (a * (3 * R + 1))) as [Klo Khi].
  rewrite <- EK in Klo, Khi. fold K in Klo, Khi.
  set (k := IZR K) in *.
  assert (Kpos : 0 < k) by nra.
  set (d := k / IZR R).
  assert (Dpos : 0 < d) by (apply Rdiv_lt_0_compat; lra).
  assert (E : d * IZR R = k) by (unfold d; field; lra).
  destruct (Zfloor_bound (v / d)) as [Flo Fhi].
  change (Zfloor (v / d)) with row in Flo, Fhi.
  assert (Q : v / d * d = v) by (field; lra).
  assert (Lo : IZR row * d <= v).
  { apply le_div_mul; [exact Dpos | exact Flo]. }
  assert (Hi : v < (IZR row + 1) * d).
  { set (q := v / d) in *.
    assert (P : 0 < (IZR row + 1 - q) * d) by (apply Rmult_lt_0_compat; lra).
    lra. }
  assert (R0 : (0 <= row)%Z).
  { apply Zfloor_lub. apply Rmult_le_pos; [lra|].
    apply Rlt_le, Rinv_0_lt_compat. exact Dpos. }
  assert (R1 : (row < R)%Z).
  { apply lt_IZR. nra. }
  assert (r0 : 0 <= IZR row) by (apply IZR_le; exact R0).
  assert (r1 : IZR row + 1 <= IZR R).
  { rewrite <- plus_IZR. apply IZR_le. lia. }
  split; [lia|].
  assert (Dlo : IZR a * 1.5 * IZR R <= d * IZR R) by (rewrite E; nra).
  assert (Dlo' : IZR a * 1.5 <= d) by nra.
  split.
  - nra.
  - assert (G : (IZR row + 1) * k
              <= (IZR row * (IZR a * 1.5) + 2 * IZR a + 1 / 2) * IZR R) by nra.
    assert (G' : (IZR row + 1) * d * IZR R
                 <= (IZR row * (IZR a * 1.5) + 2 * IZR a + 1 / 2) * IZR R).
    { rewrite Rmult_assoc, E. exact G. }
    assert (G'' : (IZR row + 1) * d <= IZR row * (IZR a * 1.5) + 2 * IZR a + 1 / 2).
    { apply Rmult_le_reg_r with (IZR R); [lra | exact G']. }
    lra.
Qed.

(** The column band: a position [u] along the columns lies within one
    [spacingX] of the centre of the column answered. *)
Lemma column_band (sx u : number) (row : Z) :
  0 < sx ->
  let col :=
    if Z.even row
    then (2 * Math_floor (u / (2 * sx)))%Z
    else (1 + 2 * Math_floor ((u - sx) / (2 * sx)))%Z in
  Z.even col = Z.even row
  /\ IZR col * sx <= u < (IZR col + 2) * sx.
Proof.
  intros Hs col. unfold col.
  destruct (Z.even row) eqn:E.
  - destruct (Zfloor_bound (u / (2 * sx))) as [Lo Hi].
    fold (Math_floor (u / (2 * sx))) in Lo, Hi.
    set (k := Math_floor (u / (2 * sx))) in *.
    assert (Q : u / (2 * sx) * (2 * sx) = u) by (field; lra).
    split; [rewrite Z.even_mul; reflexivity|].
    rewrite mult_IZR. split; nra.
  - destruct (Zfloor_bound ((u - sx) / (2 * sx))) as [Lo Hi].
    fold (Math_floor ((u - sx) / (2 * sx))) in Lo, Hi.
    set (k := Math_floor ((u - sx) / (2 * sx))) in *.
    assert (Q : (u - sx) / (2 * sx) * (2 * sx) = u - sx) by (field; lra).
    split; [rewrite Z.even_add, Z.even_mul; reflexivity|].
    rewrite plus_IZR, mult_IZR. split; nra.
Qed.

(** ** Where a point of the canvas is mapped *)

(** X1. The cell [_normalizedEventToPosition] answers for a point of the
    canvas holds the point in its bounding box: along the columns the
    point is within one [spacingX] of the cell's centre, along the rows
    between the top of its hexagon and half a pixel below its bottom. *)
Theorem answered_cell_contains_point
    (measureText : Font -> string -> number) (this0 : Hex) (R : Z) (x y : number) :
  let this := _updateSize measureText this0 in
  (1 <= _hexSize this)%Z ->
  height (_options this0) = IZR R ->
  (1 <= R)%Z ->
  0 <= x < IZR (canvas_width (_ctx this)) ->
  0 <= y < IZR (canvas_height (_ctx this)) ->
  let cell := _normalizedEventToPosition this x y in
  let centre := cell_px this (IZR (fst cell)) (IZR (snd cell)) in
  let a := IZR (_hexSize this) in
  if transpose (_options this0)
  then (snd centre - _spacingX this <= y < snd centre + _spacingX this)
       /\ (fst centre - a <= x < fst centre + a + 1 / 2)
  else (fst centre - _spacingX this <= x < fst centre + _spacingX this)
       /\ (snd centre - a <= y < snd centre + a + 1 / 2).
Proof.
  intros this Ha HR R1 Hx Hy cell centre a.
  assert (B := sqrt3_bounds).
  destruct (updateSize_geometry measureText this0) as (Ho & Hsx & Hsy & _ & Hrows).
  fold this in Ho, Hsx, Hsy, Hrows.
  assert (A : 1 <= a) by (apply IZR_le; exact Ha).
  assert (Sx : 0 < _spacingX this) by (rewrite Hsx; fold a; nra).
  destruct (in_bounds_along this x y Hx Hy) as [_ Hv].
  rewrite Hrows, Hsy, HR in Hv.
  destruct (row_band (_hexSize this) R _ Ha R1 Hv) as [Hrow Hband].
  assert (Core := normalizedEventToPosition_core this x y).
  cbv zeta in Core. rewrite Ho, HR, Hrows, Hsy, HR in Core.
  set (row := Math_floor
                (along_rows this x y
                 / (IZR (Math_ceil ((IZR R - 1) * (IZR (_hexSize this) * 1.5)
                                    + 2 * IZR (_hexSize this))) / IZR R))) in *.
  destruct (column_band (_spacingX this) (along_columns this x y) row Sx)
    as [_ Hcol].
  cbv zeta in Hcol.
  set (col := if Z.even row
              then (2 * Math_floor (along_columns this x y / (2 * _spacingX this)))%Z
              else (1 + 2 * Math_floor ((along_columns this x y - _spacingX this)
                                        / (2 * _spacingX this)))%Z) in *.
  assert (Ecell : cell = (col, row)) by exact Core.
  unfold centre. rewrite Ecell. cbn [fst snd].
  unfold cell_px. unfold along_columns, along_rows in Hcol, Hband.
  rewrite Ho in *. rewrite Hsy. fold a. fold a in Hband.
  destruct (transpose (_options this0)); cbn [fst snd]; split; lra.
Qed.

Lemma answered_cell_contains_point_witness :
  (1 <= _hexSize (_updateSize fixed_pitch (ten_by_ten false)))%Z
  /\ 0 <= 20 < IZR (canvas_width (_ctx (_updateSize fixed_pitch (ten_by_ten false))))
  /\ 0 <= 30 < IZR (canvas_height (_ctx (_updateSize fixed_pitch (ten_by_ten false))))
  /\ let this := _updateSize fixed_pitch (ten_by_ten false) in
     let cell := _normalizedEventToPosition this 20 30 in
     let centre := cell_px this (IZR (fst cell)) (IZR (snd cell)) in
     (fst centre - _spacingX this <= 20 < fst centre + _spacingX this)
     /\ (snd centre - IZR (_hexSize this) <= 30
         < snd centre + IZR (_hexSize this) + 1 / 2).
Proof.
  rewrite updateSize_ten_by_ten.
  split; [simpl; lia|]. split; [simpl; lra|]. split; [simpl; lra|].
  rewrite <- (updateSize_ten_by_ten false).
  apply (answered_cell_contains_point fixed_pitch (ten_by_ten false) 10 20 30).
  - rewrite updateSize_ten_by_ten. simpl; lia.
  - reflexivity.
  - lia.
  - rewrite updateSize_ten_by_ten. simpl; lra.
  - rewrite updateSize_ten_by_ten. simpl; lra.
Defined.



(** ** The grid that fits a box *)

Lemma computeSize_core (this : Hex) (W H : number) :
  fst (computeSize this W H)
  = ((Math_floor (along_columns this W H / _spacingX this) - 1)%Z,
     Math_floor ((along_rows this W H - 2 * IZR (_hexSize this)) / _spacingY this + 1)).
Proof.
  unfold computeSize, along_columns, along_rows.
  destruct (transpose (_options this)); cbn [fst].
  - replace (W + H - (W + H - H)) with H by ring.
    replace (W + H - H) with W by ring. reflexivity.
  - reflexivity.
Qed.

Lemma Math_ceil_IZR (z : Z) : Math_ceil (IZR z) = z.
Proof. unfold Math_ceil. apply Zceil_eq. lra. Qed.

(** X3. The grid [computeSize] answers is the largest that fits: its
    columns and rows fit the box, one column more or one row more does
    not.  Under transposition the columns run along the height of the box
    and the rows along its width, and the box has whole-number sides. *)
Theorem computeSize_largest_fit (this : Hex) (W H : number) :
  exchanged_exactly this W H ->
  0 < _spacingX this ->
  0 < _spacingY this ->
  let cols := IZR (fst (fst (computeSize this W H))) in
  let rows := IZR (snd (fst (computeSize this W H))) in
  ((cols + 1) * _spacingX this <= along_columns this W H
   < (cols + 1 + 1) * _spacingX this)
  /\ ((rows - 1) * _spacingY this + 2 * IZR (_hexSize this) <= along_rows this W H
      < (rows + 1 - 1) * _spacingY this + 2 * IZR (_hexSize this)).
Proof.
  intros _ Sx Sy cols rows. unfold cols, rows.
  rewrite computeSize_core. cbn [fst snd].
  set (u := along_columns this W H). set (v := along_rows this W H).
  destruct (Zfloor_bound (u / _spacingX this)) as [Ulo Uhi].
  destruct (Zfloor_bound ((v - 2 * IZR (_hexSize this)) / _spacingY this + 1))
    as [Vlo Vhi].
  unfold Math_floor. rewrite minus_IZR.
  set (p := u / _spacingX this) in *.
  set (q := (v - 2 * IZR (_hexSize this)) / _spacingY this) in *.
  assert (P : p * _spacingX this = u) by (unfold p; field; lra).
  assert (Q : q * _spacingY this = v - 2 * IZR (_hexSize this))
    by (unfold q; field; lra).
  split; split; nra.
Qed.

Lemma computeSize_largest_fit_witness :
  exchanged_exactly (ten_by_ten true) (IZR 100) (IZR 200)
  /\ 0 < _spacingX (ten_by_ten true)
  /\ 0 < _spacingY (ten_by_ten true)
  /\ let cols := IZR (fst (fst (computeSize (ten_by_ten true) (IZR 100) (IZR 200)))) in
     let rows := IZR (snd (fst (computeSize (ten_by_ten true) (IZR 100) (IZR 200)))) in
     ((cols + 1) * _spacingX (ten_by_ten true) <= IZR 200
      < (cols + 1 + 1) * _spacingX (ten_by_ten true))
     /\ ((rows - 1) * _spacingY (ten_by_ten true) + 2 * IZR 10 <= IZR 100
         < (rows + 1 - 1) * _spacingY (ten_by_ten true) + 2 * IZR 10).
Proof.
  assert (B := sqrt3_bounds).
  assert (E : exchanged_exactly (ten_by_ten true) (IZR 100) (IZR 200)).
  { right. split; [exists 100%Z | exists 200%Z]; reflexivity. }
  assert (Sx : 0 < _spacingX (ten_by_ten true)) by (simpl; lra).
  assert (Sy : 0 < _spacingY (ten_by_ten true)) by (simpl; lra).
  split; [exact E|]. split; [exact Sx|]. split; [exact Sy|].
  exact (computeSize_largest_fit (ten_by_ten true) (IZR 100) (IZR 200) E Sx Sy).
Defined.

(** X4. A larger box never gets a smaller grid: any two boxes without
    transposition, boxes of whole-number sides with it. *)
Theorem computeSize_monotone (this : Hex) (W H W' H' : number) :
  exchanged_exactly this W H ->
  exchanged_exactly this W' H' ->
  0 < _spacingX this ->
  0 < _spacingY this ->
  W <= W' -> H <= H' ->
  (fst (fst (computeSize this W H)) <= fst (fst (computeSize this W' H')))%Z
  /\ (snd (fst (computeSize this W H)) <= snd (fst (computeSize this W' H')))%Z.
Proof.
  intros _ _ Sx Sy HW HH. rewrite !computeSize_core. cbn [fst snd].
  assert (U : along_columns this W H <= along_columns this W' H').
  { unfold along_columns. destruct (transpose (_options this)); assumption. }
  assert (V : along_rows this W H <= along_rows this W' H').
  { unfold along_rows. destruct (transpose (_options this)); assumption. }
  assert (Ix : 0 < / _spacingX this) by (apply Rinv_0_lt_compat; exact Sx).
  assert (Iy : 0 < / _spacingY this) by (apply Rinv_0_lt_compat; exact Sy).
  split.
  - apply Z.sub_le_mono_r. apply Zfloor_le.
    unfold Rdiv. apply Rmult_le_compat_r; lra.
  - apply Zfloor_le. apply Rplus_le_compat_r.
    unfold Rdiv. apply Rmult_le_compat_r; lra.
Qed.

Lemma computeSize_monotone_witness :
  exchanged_exactly (ten_by_ten true) (IZR 100) (IZR 200)
  /\ exchanged_exactly (ten_by_ten true) (IZR 480) (IZR 640)
  /\ 0 < _spacingX (ten_by_ten true)
  /\ 0 < _spacingY (ten_by_ten true)
  /\ IZR 100 <= IZR 480 /\ IZR 200 <= IZR 640
  /\ (fst (fst (computeSize (ten_by_ten true) (IZR 100) (IZR 200)))
      <= fst (fst (computeSize (ten_by_ten true) (IZR 480) (IZR 640))))%Z
  /\ (snd (fst (computeSize (ten_by_ten true) (IZR 100) (IZR 200)))
      <= snd (fst (computeSize (ten_by_ten true) (IZR 480) (IZR 640))))%Z.
Proof.
  assert (B := sqrt3_bounds).
  assert (E : exchanged_exactly (ten_by_ten true) (IZR 100) (IZR 200)).
  { right. split; [exists 100%Z | exists 200%Z]; reflexivity. }
  assert (E' : exchanged_exactly (ten_by_ten true) (IZR 480) (IZR 640)).
  { right. split; [exists 480%Z | exists 640%Z]; reflexivity. }
  assert (Sx : 0 < _spacingX (ten_by_ten true)) by (simpl; lra).
  assert (Sy : 0 < _spacingY (ten_by_ten true)) by (simpl; lra).
  split; [exact E|]. split; [exact E'|]. split; [exact Sx|]. split; [exact Sy|].
  split; [lra|]. split; [lra|].
  apply (computeSize_monotone (ten_by_ten true) (IZR 100) (IZR 200) (IZR 480) (IZR 640)
           E E' Sx Sy); lra.
Defined.

(** X5. Capacity of the canvas: asked about the canvas [_updateSize] has
    sized for [C] columns and [R] rows, [computeSize] answers [C] and [R],
    with or without transposition. *)
Theorem computeSize_of_canvas
    (measureText : Font -> string -> number) (this0 : Hex) (C R : Z) :
  let this := _updateSize measureText this0 in
  (2 <= _hexSize this)%Z ->
  width (_options this0) = IZR C ->
  height (_options this0) = IZR R ->
  fst (computeSize this (IZR (canvas_width (_ctx this)))
                        (IZR (canvas_height (_ctx this))))
  = (C, R).
Proof.
  intros this Ha HC HR.
  assert (B := sqrt3_bounds).
  destruct (updateSize_geometry measureText this0) as (Ho & Hsx & Hsy & Hcols & Hrows).
  fold this in Ho, Hsx, Hsy, Hcols, Hrows.
  assert (A : 2 <= IZR (_hexSize this)) by (apply IZR_le; exact Ha).
  assert (Sx : 1 <= _spacingX this) by (rewrite Hsx; nra).
  assert (Sy : 3 <= _spacingY this) by (rewrite Hsy; lra).
  rewrite computeSize_core.
  assert (U : along_columns this (IZR (canvas_width (_ctx this)))
                (IZR (canvas_height (_ctx this))) = IZR (columns_side this)).
  { unfold along_columns, columns_side. destruct (transpose (_options this)); reflexivity. }
  assert (V : along_rows this (IZR (canvas_width (_ctx this)))
                (IZR (canvas_height (_ctx this))) = IZR (rows_side this)).
  { unfold along_rows, rows_side. destruct (transpose (_options this)); reflexivity. }
  rewrite U, V, Hcols, Hrows, HC, HR.
  destruct (Zceil_bound ((IZR C + 1) * _spacingX this)) as [Clo Chi].
  destruct (Zceil_bound ((IZR R - 1) * _spacingY this + 2 * IZR (_hexSize this)))
    as [Rlo Rhi].
  unfold Math_ceil.
  set (cw := IZR (Zceil ((IZR C + 1) * _spacingX this))) in *.
  set (ch := IZR (Zceil ((IZR R - 1) * _spacingY this + 2 * IZR (_hexSize this)))) in *.
  f_equal.
  - rewrite (floor_div_eq (C + 1)); [lia | lra |].
    rewrite plus_IZR. split; nra.
  - set (q := (ch - 2 * IZR (_hexSize this)) / _spacingY this).
    assert (Q : q * _spacingY this = ch - 2 * IZR (_hexSize this))
      by (unfold q; field; lra).
    unfold Math_floor. apply Zfloor_eq. split; nra.
Qed.

Lemma computeSize_of_canvas_witness :
  (2 <= _hexSize (_updateSize fixed_pitch (ten_by_ten true)))%Z
  /\ let this := _updateSize fixed_pitch (ten_by_ten true) in
     fst (computeSize this (IZR (canvas_width (_ctx this)))
                           (IZR (canvas_height (_ctx this))))
     = (10, 10)%Z.
Proof.
  assert (A : (2 <= _hexSize (_updateSize fixed_pitch (ten_by_ten true)))%Z).
  { rewrite updateSize_ten_by_ten. simpl; lia. }
  split; [exact A|].
  exact (computeSize_of_canvas fixed_pitch (ten_by_ten true) 10 10 A eq_refl eq_refl).
Defined.

(** X6. Applying the answer of [computeSize]: when the box has whole
    sides and the grid answered for it is made the grid of the backend,
    under the font and spacing that gave the present circumradius, the
    canvas [_updateSize] then sets is no larger than the box. *)
Theorem computed_grid_fits_box
    (measureText : Font -> string -> number) (this refit0 : Hex) (W H : Z) :
  (1 <= _hexSize this)%Z ->
  _spacingX this = IZR (_hexSize this) * Math_sqrt 3 / 2 ->
  _spacingY this = IZR (_hexSize this) * 1.5 ->
  let grid := fst (computeSize this (IZR W) (IZR H)) in
  _options refit0 = resize (IZR (fst grid)) (IZR (snd grid)) (_options this) ->
  let refit := _updateSize measureText refit0 in
  _hexSize refit = _hexSize this ->
  (canvas_width (_ctx refit) <= W)%Z /\ (canvas_height (_ctx refit) <= H)%Z.
Proof.
  intros Ha Hsx Hsy grid Ho refit Hsame.
  assert (B := sqrt3_bounds).
  assert (A : 1 <= IZR (_hexSize this)) by (apply IZR_le; exact Ha).
  assert (Sx : 0 < _spacingX this) by (rewrite Hsx; nra).
  assert (Sy : 0 < _spacingY this) by (rewrite Hsy; lra).
  destruct (updateSize_geometry measureText refit0) as (Ho' & Rsx & Rsy & Rcols & Rrows).
  fold refit in Ho', Rsx, Rsy, Rcols, Rrows.
  rewrite Hsame, <- Hsx in Rsx. rewrite Hsame, <- Hsy in Rsy.
  rewrite Rsx, Ho in Rcols. rewrite Rsy, Hsame, Ho in Rrows.
  cbn [resize width height] in Rcols, Rrows.
  assert (G := computeSize_core this (IZR W) (IZR H)). fold grid in G.
  destruct (Zfloor_bound (along_columns this (IZR W) (IZR H) / _spacingX this))
    as [Ulo _].
  destruct (Zfloor_bound ((along_rows this (IZR W) (IZR H)
                           - 2 * IZR (_hexSize this)) / _spacingY this + 1))
    as [Vlo _].
  set (u := along_columns this (IZR W) (IZR H)) in *.
  set (v := along_rows this (IZR W) (IZR H)) in *.
  set (p := u / _spacingX this) in *.
  set (q := (v - 2 * IZR (_hexSize this)) / _spacingY this) in *.
  assert (P : p * _spacingX this = u) by (unfold p; field; lra).
  assert (Q : q * _spacingY this = v - 2 * IZR (_hexSize this))
    by (unfold q; field; lra).
  assert (Fu : (IZR (fst grid) + 1) * _spacingX this <= u).
  { rewrite G. cbn [fst]. unfold Math_floor. rewrite minus_IZR. nra. }
  assert (Fv : (IZR (snd grid) - 1) * _spacingY this + 2 * IZR (_hexSize this) <= v).
  { rewrite G. cbn [snd]. unfold Math_floor. nra. }
  assert (Cu : (columns_side refit
                <= Math_ceil u)%Z).
  { rewrite Rcols. unfold Math_ceil. apply Zceil_le. exact Fu. }
  assert (Cv : (rows_side refit <= Math_ceil v)%Z).
  { rewrite Rrows. unfold Math_ceil. apply Zceil_le. exact Fv. }
  assert (Et : transpose (_options refit) = transpose (_options this)).
  { rewrite Ho', Ho. reflexivity. }
  unfold columns_side, rows_side in Cu, Cv. rewrite Et in Cu, Cv.
  unfold u, v, along_columns, along_rows in Cu, Cv.
  destruct (transpose (_options this)); rewrite !Math_ceil_IZR in Cu, Cv; lia.
Qed.

Lemma computed_grid_fits_box_witness :
  let this := ten_by_ten true in
  let grid := fst (computeSize this (IZR 100) (IZR 200)) in
  let refit :=
    _updateSize fixed_pitch
      (with_options (resize (IZR (fst grid)) (IZR (snd grid)) (_options this)) this) in
  _hexSize refit = _hexSize this
  /\ (canvas_width (_ctx refit) <= 100)%Z /\ (canvas_height (_ctx refit) <= 200)%Z.
Proof.
  assert (B := sqrt3_bounds).
  cbv zeta.
  assert (S : _hexSize
                (_updateSize fixed_pitch
                   (with_options
                      (resize (IZR (fst (fst (computeSize (ten_by_ten true) (IZR 100) (IZR 200)))))
                              (IZR (snd (fst (computeSize (ten_by_ten true) (IZR 100) (IZR 200)))))
                              (_options (ten_by_ten true)))
                      (ten_by_ten true)))
              = _hexSize (ten_by_ten true)).
  { unfold _updateSize, fixed_pitch.
    cbn [_options with_options resize spacing fontSize transpose ten_by_ten
         hex_of_radius _ctx font font_px _hexSize with_ctx].
    assert (C : Math_ceil (0.6 * 15) = 9%Z) by ceil_is.
    rewrite C.
    assert (Q := div_between 9 (Math_sqrt 3) 5 5.5 ltac:(lra) ltac:(lra)).
    floor_is. }
  split; [exact S|].
  apply (computed_grid_fits_box fixed_pitch (ten_by_ten true)
           (with_options
              (resize (IZR (fst (fst (computeSize (ten_by_ten true) (IZR 100) (IZR 200)))))
                      (IZR (snd (fst (computeSize (ten_by_ten true) (IZR 100) (IZR 200)))))
                      (_options (ten_by_ten true)))
              (ten_by_ten true)) 100 200).
  - simpl; lia.
  - reflexivity.
  - reflexivity.
  - reflexivity.
  - exact S.
Defined.

(** ** What [draw] paints *)

Lemma frame_issue_all (ds : list DrawCall) (c : CanvasRenderingContext2D) :
  let c' := fold_left (fun c d => issue d c) ds c in
  font c' = font c /\ textAlign c' = textAlign c /\ textBaseline c' = textBaseline c
  /\ canvas_width c' = canvas_width c /\ canvas_height c' = canvas_height c.
Proof.
  revert c. induction ds as [|d ds IH]; intros c; cbn [fold_left].
  - repeat split.
  - destruct (IH (issue d c)) as (F & A & Bl & W & H).
    cbv zeta. rewrite F, A, Bl, W, H. repeat split.
Qed.

Lemma frame_draw_chars (chars : list string) (px : number * number)
    (c : CanvasRenderingContext2D) :
  let c' := draw_chars chars px c in
  font c' = font c /\ textAlign c' = textAlign c /\ textBaseline c' = textBaseline c
  /\ canvas_width c' = canvas_width c /\ canvas_height c' = canvas_height c
  /\ fillStyle c' = fillStyle c.
Proof.
  revert c. induction chars as [|g chars IH]; intros c; cbn [draw_chars].
  - repeat split.
  - destruct (IH (ctx_fillText g (fst px) (IZR (Math_ceil (snd px))) c))
      as (F & A & Bl & W & H & S).
    cbv zeta. rewrite F, A, Bl, W, H, S. repeat split.
Qed.

(** X7. [draw] touches nothing but the fill style and the list of drawing
    calls, which it only extends: options, geometry, font, alignment and
    canvas size are as before.  It leaves its last fill style behind: the
    foreground when there were glyphs, else the background when it
    cleared, else the one it found. *)
Theorem draw_frame (this : Hex) (data : DisplayData.t) (clearBefore : bool) :
  let this' := draw this data clearBefore in
  _options this' = _options this
  /\ _spacingX this' = _spacingX this
  /\ _spacingY this' = _spacingY this
  /\ _hexSize this' = _hexSize this
  /\ font (_ctx this') = font (_ctx this)
  /\ textAlign (_ctx this') = textAlign (_ctx this)
  /\ textBaseline (_ctx this') = textBaseline (_ctx this)
  /\ canvas_width (_ctx this') = canvas_width (_ctx this)
  /\ canvas_height (_ctx this') = canvas_height (_ctx this)
  /\ (exists new : list DrawCall,
        calls (_ctx this') = calls (_ctx this) ++ new
        /\ List.length new
           = ((if clearBefore then 9 else 0)
              + List.length (DisplayData.chars data))%nat)
  /\ fillStyle (_ctx this')
     = match DisplayData.chars data with
       | _ :: _ => DisplayData.fg data
       | [] => if clearBefore then DisplayData.bg data else fillStyle (_ctx this)
       end.
Proof.
  unfold draw.
  set (px := cell_px this (DisplayData.x data) (DisplayData.y data)).
  set (cleared := if clearBefore
                  then _fill (with_ctx (set_fillStyle (DisplayData.bg data) (_ctx this)) this)
                             (fst px) (snd px)
                  else this).
  assert (Hc : _options cleared = _options this
               /\ _spacingX cleared = _spacingX this
               /\ _spacingY cleared = _spacingY this
               /\ _hexSize cleared = _hexSize this
               /\ font (_ctx cleared) = font (_ctx this)
               /\ textAlign (_ctx cleared) = textAlign (_ctx this)
               /\ textBaseline (_ctx cleared) = textBaseline (_ctx this)
               /\ canvas_width (_ctx cleared) = canvas_width (_ctx this)
               /\ canvas_height (_ctx cleared) = canvas_height (_ctx this)
               /\ (exists new, calls (_ctx cleared) = calls (_ctx this) ++ new
                               /\ List.length new = if clearBefore then 9%nat else 0%nat)
               /\ fillStyle (_ctx cleared)
                  = if clearBefore then DisplayData.bg data else fillStyle (_ctx this)).
  { unfold cleared. destruct clearBefore.
    - unfold _fill, ctx_fill. cbn [_options _spacingX _spacingY _hexSize _ctx with_ctx].
      set (start := issue beginPath (set_fillStyle (DisplayData.bg data) (_ctx this))).
      set (path := hexagon (with_ctx (set_fillStyle (DisplayData.bg data) (_ctx this)) this)
                           (fst px) (snd px)).
      destruct (frame_issue_all path start) as (F & A & Bl & W & H).
      cbv zeta in F, A, Bl, W, H.
      cbn [issue font textAlign textBaseline canvas_width canvas_height calls fillStyle].
      rewrite F, A, Bl, W, H, calls_issue_all, fillStyle_issue_all.
      repeat split.
      exists (beginPath :: path ++ [fill (DisplayData.bg data)]). split.
      + unfold start. cbn [issue calls set_fillStyle fillStyle].
        rewrite <- !app_assoc. reflexivity.
      + cbn [List.length]. rewrite length_app. unfold path, hexagon.
        destruct (transpose _); reflexivity.
    - repeat split. exists []. now rewrite app_nil_r. }
  destruct Hc as (H1 & H2 & H3 & H4 & H5 & H6 & H7 & H8 & H9 & (new & Hn & Hl) & H11).
  destruct (DisplayData.chars data) as [|g chars] eqn:E; cbn [List.length Nat.eqb]; cbv zeta.
  - repeat (split; [assumption|]). split; [|assumption].
    exists new. split; [assumption|]. rewrite Hl. lia.
  - cbn [_options _spacingX _spacingY _hexSize _ctx with_ctx].
    destruct (frame_draw_chars (g :: chars) px
                (set_fillStyle (DisplayData.fg data) (_ctx cleared)))
      as (F & A & Bl & W & H & S).
    cbv zeta in F, A, Bl, W, H, S.
    rewrite F, A, Bl, W, H, S, calls_draw_chars.
    cbn [set_fillStyle font textAlign textBaseline canvas_width canvas_height
         fillStyle calls].
    repeat (split; [assumption|]). split; [|reflexivity].
    eexists. split.
    + rewrite Hn, <- app_assoc. reflexivity.
    + rewrite length_app, length_map, Hl. reflexivity.
Qed.

(** X8. Nothing is drawn off the canvas: for a cell of the grid, every
    point that [draw] addresses, the corners of the hexagon it fills and
    the place of the glyphs, lies on the canvas [_updateSize] has sized,
    as long as the border is between 0 and the circumradius. *)
Theorem draw_stays_on_canvas
    (measureText : Font -> string -> number) (this0 : Hex)
    (C R c r : Z) (data : DisplayData.t) (clearBefore : bool) :
  let this := _updateSize measureText this0 in
  (1 <= _hexSize this)%Z ->
  width (_options this0) = IZR C ->
  height (_options this0) = IZR R ->
  0 <= border (_options this0) <= IZR (_hexSize this) ->
  (0 <= c < C)%Z -> (0 <= r < R)%Z ->
  DisplayData.x data = IZR c ->
  DisplayData.y data = IZR r ->
  exists new : list DrawCall,
    calls (_ctx (draw this data clearBefore)) = calls (_ctx this) ++ new
    /\ Forall (within (IZR (canvas_width (_ctx this)))
                      (IZR (canvas_height (_ctx this)))) new.
Proof.
  intros this Ha HC HR Hb Hc Hr Dx Dy.
  assert (B := sqrt3_bounds).
  destruct (updateSize_geometry measureText this0) as (Ho & Hsx & Hsy & Hcols & Hrows).
  fold this in Ho, Hsx, Hsy, Hcols, Hrows.
  set (a := IZR (_hexSize this)) in *.
  set (sx := _spacingX this) in *.
  assert (A : 1 <= a) by (apply IZR_le; exact Ha).
  assert (Sxa : 0.866 * a <= sx <= 0.8661 * a) by (rewrite Hsx; split; nra).
  assert (c0 : 0 <= IZR c) by (apply IZR_le; lia).
  assert (c1 : IZR c + 1 <= IZR C) by (rewrite <- plus_IZR; apply IZR_le; lia).
  assert (r0 : 0 <= IZR r) by (apply IZR_le; lia).
  assert (r1 : IZR r + 1 <= IZR R) by (rewrite <- plus_IZR; apply IZR_le; lia).
  (* the centre, along the columns and along the rows *)
  set (u := (IZR c + 1) * sx).
  set (v := IZR r * (a * 1.5) + a).
  assert (Ulo : sx <= u) by (unfold u; nra).
  assert (Uhi : u + sx <= (IZR C + 1) * sx) by (unfold u; nra).
  assert (Vlo : a <= v) by (unfold v; nra).
  assert (Vhi : v + a <= (IZR R - 1) * (a * 1.5) + 2 * a) by (unfold v; nra).
  destruct (Zceil_bound ((IZR C + 1) * sx)) as [_ Ccov].
  destruct (Zceil_bound ((IZR R - 1) * (a * 1.5) + 2 * a)) as [_ Rcov].
  rewrite HC in Hcols. rewrite HR, Hsy in Hrows.
  unfold Math_ceil in Hcols, Hrows. rewrite <- Hcols in Ccov. rewrite <- Hrows in Rcov.
  (* the glyph sits at the rounded-up second coordinate *)
  assert (Gu : IZR (Math_ceil u) <= IZR (columns_side this)).
  { apply IZR_le. rewrite Hcols. unfold Math_ceil. apply Zceil_le. lra. }
  assert (Gv : IZR (Math_ceil v) <= IZR (rows_side this)).
  { apply IZR_le. rewrite Hrows. unfold Math_ceil. apply Zceil_le. lra. }
  assert (Gu0 : u <= IZR (Math_ceil u)) by apply Zceil_bound.
  assert (Gv0 : v <= IZR (Math_ceil v)) by apply Zceil_bound.
  exists ((if clearBefore
           then beginPath
                :: hexagon this (fst (cell_px this (IZR c) (IZR r)))
                                (snd (cell_px this (IZR c) (IZR r)))
                   ++ [fill (DisplayData.bg data)]
           else [])
          ++ map (fun g => fillText (DisplayData.fg data) g
                             (fst (cell_px this (IZR c) (IZR r)))
                             (IZR (Math_ceil (snd (cell_px this (IZR c) (IZR r))))))
                 (DisplayData.chars data)).
  split.
  - unfold draw. rewrite Dx, Dy.
    destruct (DisplayData.chars data) as [|g chars]; cbn [List.length Nat.eqb map].
    + rewrite app_nil_r. destruct clearBefore.
      * rewrite calls_fill. reflexivity.
      * now rewrite app_nil_r.
    + destruct clearBefore; cbn [_ctx with_ctx]; rewrite calls_draw_chars;
        cbn [calls set_fillStyle fillStyle].
      * rewrite calls_fill. cbn [_ctx with_ctx calls set_fillStyle fillStyle].
        rewrite <- !app_assoc. reflexivity.
      * reflexivity.
  - unfold columns_side, rows_side in *. unfold cell_px, hexagon.
    rewrite Ho in *. rewrite Hsy. fold a sx. fold u v.
    apply Forall_app. split.
    + destruct clearBefore; [|constructor].
      destruct (transpose (_options this0)); cbn [fst snd app];
        repeat (constructor; [cbn [within]; try exact I; split; lra|]);
        constructor.
    + apply Forall_map. apply Forall_forall. intros g _.
      destruct (transpose (_options this0)); cbn [fst snd within]; split; lra.
Qed.

Lemma draw_stays_on_canvas_witness :
  (1 <= _hexSize (_updateSize fixed_pitch (ten_by_ten false)))%Z
  /\ 0 <= border (_options (ten_by_ten false))
       <= IZR (_hexSize (_updateSize fixed_pitch (ten_by_ten false)))
  /\ exists new : list DrawCall,
       calls (_ctx (draw (_updateSize fixed_pitch (ten_by_ten false))
                         (at_sign (IZR 9) (IZR 9)) true))
       = calls (_ctx (_updateSize fixed_pitch (ten_by_ten false))) ++ new
       /\ Forall (within
                    (IZR (canvas_width (_ctx (_updateSize fixed_pitch (ten_by_ten false)))))
                    (IZR (canvas_height (_ctx (_updateSize fixed_pitch (ten_by_ten false))))))
                 new.
Proof.
  assert (A : (1 <= _hexSize (_updateSize fixed_pitch (ten_by_ten false)))%Z).
  { rewrite updateSize_ten_by_ten. simpl; lia. }
  assert (Bd : 0 <= border (_options (ten_by_ten false))
               <= IZR (_hexSize (_updateSize fixed_pitch (ten_by_ten false)))).
  { rewrite updateSize_ten_by_ten. simpl; lra. }
  split; [exact A|]. split; [exact Bd|].
  apply (draw_stays_on_canvas fixed_pitch (ten_by_ten false) 10 10 9 9
           (at_sign (IZR 9) (IZR 9)) true A eq_refl eq_refl Bd).
  - lia.
  - lia.
  - reflexivity.
  - reflexivity.
Defined.

(** ** The shape of the grid *)

(** X9. With no border the path [_fill] traces is the regular hexagon of
    circumradius [_hexSize] about the point it is given: it is closed,
    its corners are all at that distance from the centre, and so are
    consecutive corners from each other. *)
Theorem fill_is_regular_hexagon
    (measureText : Font -> string -> number) (this0 : Hex) (cx cy : number) :
  let this := _updateSize measureText this0 in
  border (_options this0) = 0 ->
  let a := IZR (_hexSize this) in
  let corners := path_points (hexagon this cx cy) in
  List.length corners = 7%nat
  /\ hd (cx, cy) corners = last corners (cx, cy)
  /\ Forall (fun p => dist2 p (cx, cy) = a * a) corners
  /\ Forall (fun s => dist2 (fst s) (snd s) = a * a) (sides corners).
Proof.
  intros this Hb a corners.
  assert (S := sqrt3_sqr).
  destruct (updateSize_geometry measureText this0) as (Ho & Hsx & _).
  fold this in Ho, Hsx. fold a in Hsx.
  unfold corners, hexagon. rewrite Ho, Hb, Hsx. fold a.
  set (s := Math_sqrt 3) in *.
  destruct (transpose (_options this0)); cbn [path_points sides List.length hd last].
  all: split; [reflexivity|]; split; [reflexivity|]; split.
  all: repeat (constructor; [unfold dist2; cbn [fst snd]; nra|]); constructor.
Qed.

Lemma fill_is_regular_hexagon_witness :
  border (_options (ten_by_ten false)) = 0
  /\ let this := _updateSize fixed_pitch (ten_by_ten false) in
     let corners := path_points (hexagon this 50 60) in
     Forall (fun p => dist2 p (50, 60) = IZR (_hexSize this) * IZR (_hexSize this))
            corners.
Proof.
  split; [reflexivity|].
  apply (fill_is_regular_hexagon fixed_pitch (ten_by_ten false) 50 60 eq_refl).
Defined.

(** X10. The centres [draw] uses lie on a hexagonal lattice: from any cell
    the six neighbours of doubled coordinates, two columns along the row
    or one column and one row away, have their centres at the same
    distance, twice [spacingX], which is the width of a hexagon. *)
Theorem neighbours_equidistant
    (measureText : Font -> string -> number) (this0 : Hex) (c r : number) :
  let this := _updateSize measureText this0 in
  Forall (fun d =>
            dist2 (cell_px this (c + fst d) (r + snd d)) (cell_px this c r)
            = (2 * _spacingX this) * (2 * _spacingX this))
         neighbours.
Proof.
  intros this.
  assert (S := sqrt3_sqr).
  destruct (updateSize_geometry measureText this0) as (Ho & Hsx & Hsy & _).
  fold this in Ho, Hsx, Hsy.
  unfold neighbours, cell_px, dist2. rewrite Ho, Hsx, Hsy.
  set (a := IZR (_hexSize this)). set (s := Math_sqrt 3) in *.
  assert (T : a * a * (s * s) = 3 * (a * a)) by (rewrite S; ring).
  destruct (transpose (_options this0)); cbn [fst snd].
  all: ring_simplify in T.
  all: repeat (constructor; [cbv beta; cbn [fst snd]; ring_simplify; lra|]); constructor.
Qed.

(** ** From the page to the cell *)

Lemma centre_maps_back
    (measureText : Font -> string -> number) (this0 : Hex) (c r R : Z) :
  let this := _updateSize measureText this0 in
  (1 <= _hexSize this)%Z ->
  height (_options this0) = IZR R ->
  (0 <= r < R)%Z ->
  Z.even c = Z.even r ->
  _normalizedEventToPosition this
    (fst (cell_px this (IZR c) (IZR r))) (snd (cell_px this (IZR c) (IZR r)))
  = (c, r).
Proof.
  intros this Ha HR Hr Hpar.
  assert (B := sqrt3_bounds).
  destruct (updateSize_geometry measureText this0) as (Ho & Hsx & Hsy & _ & Hrows).
  fold this in Ho, Hsx, Hsy, Hrows.
  assert (A : 1 <= IZR (_hexSize this)) by (apply IZR_le; exact Ha).
  assert (Sx : 0 < _spacingX this) by (rewrite Hsx; nra).
  rewrite normalizedEventToPosition_core.
  destruct (cell_px_along this (IZR c) (IZR r)) as [-> ->].
  rewrite Ho, HR, Hrows, Hsy, HR.
  rewrite (row_of_centre (_hexSize this) R r Ha Hr), <- Hpar.
  destruct (Z.even c) eqn:E.
  - now rewrite column_on_even_row.
  - now rewrite column_on_odd_row.
Qed.

(** X11. A click on a cell finds the cell.  Wherever the canvas sits on
    the page and however it is stretched, the page position of the centre
    of a cell of the grid, one whose column and row have the same parity,
    is mapped by [eventToPosition] to that cell. *)
Theorem click_on_centre
    (measureText : Font -> string -> number) (this0 : Hex)
    (C R c r : Z) (rect : DOMRect.t) :
  let this := _updateSize measureText this0 in
  (1 <= _hexSize this)%Z ->
  width (_options this0) = IZR C ->
  height (_options this0) = IZR R ->
  (0 <= c < C)%Z -> (0 <= r < R)%Z ->
  Z.even c = Z.even r ->
  0 < DOMRect.width rect ->
  0 < DOMRect.height rect ->
  let px := cell_px this (IZR c) (IZR r) in
  let pageX :=
    DOMRect.left rect
    + fst px * (DOMRect.width rect / IZR (canvas_width (_ctx this))) in
  let pageY :=
    DOMRect.top rect
    + snd px * (DOMRect.height rect / IZR (canvas_height (_ctx this))) in
  Hex_eventToPosition this rect pageX pageY = ((c, r), this).
Proof.
  intros this Ha HC HR Hc Hr Hpar Hrw Hrh px pageX pageY.
  assert (B := sqrt3_bounds).
  destruct (updateSize_geometry measureText this0) as (Ho & Hsx & Hsy & Hcols & Hrows).
  fold this in Ho, Hsx, Hsy, Hcols, Hrows.
  set (a := IZR (_hexSize this)) in *.
  assert (A : 1 <= a) by (apply IZR_le; exact Ha).
  assert (Sx : 0 < _spacingX this) by (rewrite Hsx; nra).
  assert (c0 : 0 <= IZR c) by (apply IZR_le; lia).
  assert (c1 : IZR c + 1 <= IZR C) by (rewrite <- plus_IZR; apply IZR_le; lia).
  assert (r0 : 0 <= IZR r) by (apply IZR_le; lia).
  assert (r1 : IZR r + 1 <= IZR R) by (rewrite <- plus_IZR; apply IZR_le; lia).
  destruct (cell_px_along this (IZR c) (IZR r)) as [Eu Ev].
  fold px in Eu, Ev. rewrite Hsy in Ev. fold a in Ev.
  destruct (Zceil_bound ((IZR C + 1) * _spacingX this)) as [_ Ccov].
  destruct (Zceil_bound ((IZR R - 1) * (a * 1.5) + 2 * a)) as [_ Rcov].
  rewrite HC in Hcols. rewrite HR, Hsy in Hrows. fold a in Hrows.
  unfold Math_ceil in Hcols, Hrows. rewrite <- Hcols in Ccov. rewrite <- Hrows in Rcov.
  assert (Iu : 0 <= along_columns this (fst px) (snd px) < IZR (columns_side this))
    by (rewrite Eu; split; nra).
  assert (Iv : 0 <= along_rows this (fst px) (snd px) < IZR (rows_side this))
    by (rewrite Ev; split; nra).
  assert (Ix : 0 <= fst px < IZR (canvas_width (_ctx this))
               /\ 0 <= snd px < IZR (canvas_height (_ctx this))).
  { unfold along_columns, along_rows, columns_side, rows_side in Iu, Iv.
    destruct (transpose (_options this)); tauto. }
  destruct Ix as [Ix Iy].
  assert (Ex : (pageX - DOMRect.left rect)
               * (IZR (canvas_width (_ctx this)) / DOMRect.width rect) = fst px).
  { unfold pageX. field. split; lra. }
  assert (Ey : (pageY - DOMRect.top rect)
               * (IZR (canvas_height (_ctx this)) / DOMRect.height rect) = snd px).
  { unfold pageY. field. split; lra. }
  rewrite Hex_eventToPosition_inside; cbv zeta; rewrite ?Ex, ?Ey; try assumption.
  f_equal. exact (centre_maps_back measureText this0 c r R Ha HR Hr Hpar).
Qed.

Lemma click_on_centre_witness :
  (1 <= _hexSize (_updateSize fixed_pitch (ten_by_ten true)))%Z
  /\ 0 < DOMRect.width (DOMRect.make 8 8 310 192)
  /\ 0 < DOMRect.height (DOMRect.make 8 8 310 192)
  /\ let this := _updateSize fixed_pitch (ten_by_ten true) in
     let px := cell_px this (IZR 3) (IZR 5) in
     Hex_eventToPosition this (DOMRect.make 8 8 310 192)
       (8 + fst px * (310 / IZR (canvas_width (_ctx this))))
       (8 + snd px * (192 / IZR (canvas_height (_ctx this))))
     = ((3, 5)%Z, this).
Proof.
  assert (A : (1 <= _hexSize (_updateSize fixed_pitch (ten_by_ten true)))%Z).
  { rewrite updateSize_ten_by_ten. simpl; lia. }
  split; [exact A|]. split; [simpl; lra|]. split; [simpl; lra|].
  apply (click_on_centre fixed_pitch (ten_by_ten true) 10 10 3 5
           (DOMRect.make 8 8 310 192) A eq_refl eq_refl).
  - lia.
  - lia.
  - reflexivity.
  - simpl; lra.
  - simpl; lra.
Defined.

(** ** After a repaint *)

(** X12. When [setOptions] asks for a repaint it leaves the context with
    the font the effective options name, centred text, and the geometry
    and canvas size derived under that very font: what the first
    [_updateSize], run by the base under the font found, had set is
    replaced. *)
Theorem setOptions_repaint_geometry
    (D : BaseDefaults) (measureText : Font -> string -> number)
    (b : Backend) (opts : HexOptions) :
  fst (setOptions D measureText b opts) = true ->
  let this := snd (setOptions D measureText b opts) in
  let o := _options this in
  let F :=
    mkFont (if (String.length (fontStyle o) =? 0)%nat then ""
            else (fontStyle o ++ " ")%string)
           (fontSize o) (fontFamily o) in
  font (_ctx this) = F
  /\ textAlign (_ctx this) = "center"
  /\ textBaseline (_ctx this) = "middle"
  /\ _hexSize this
     = Math_floor (spacing o
                   * (fontSize o + IZR (Math_ceil (measureText F "W")) / Math_sqrt 3)
                   / 2)
  /\ _spacingX this = IZR (_hexSize this) * Math_sqrt 3 / 2
  /\ _spacingY this = IZR (_hexSize this) * 1.5
  /\ columns_side this = Math_ceil ((width o + 1) * _spacingX this)
  /\ rows_side this
     = Math_ceil ((height o - 1) * _spacingY this + 2 * IZR (_hexSize this)).
Proof.
  unfold setOptions.
  destruct (BaseCanvas_setOptions D measureText b opts) as [sup this1].
  cbv beta iota zeta. cbn [fst snd]. intros H. rewrite H.
  set (o1 := _options this1).
  set (F := mkFont (if (String.length (fontStyle o1) =? 0)%nat then ""
                    else (fontStyle o1 ++ " ")%string)
                   (fontSize o1) (fontFamily o1)).
  set (this2 := with_ctx (set_font F (_ctx this1)) this1).
  assert (Ho : _options (_updateSize measureText this2) = o1)
    by apply options_updateSize.
  cbn [_options with_ctx]. rewrite Ho. fold F.
  cbn [_ctx with_ctx font textAlign textBaseline set_font set_textAlign
       set_textBaseline _hexSize _spacingX _spacingY].
  unfold columns_side, rows_side.
  cbn [_options _ctx with_ctx canvas_width canvas_height set_font set_textAlign
       set_textBaseline].
  rewrite Ho.
  unfold _updateSize.
  cbn [_options _ctx with_ctx _hexSize _spacingX _spacingY font set_font this2].
  fold o1.
  destruct (transpose o1); cbn; repeat split; reflexivity.
Qed.

Lemma setOptions_repaint_geometry_witness :
  fst (setOptions rot_DEFAULTS fixed_pitch (Uninitialized blank_ctx) scenario) = true
  /\ let this :=
       snd (setOptions rot_DEFAULTS fixed_pitch (Uninitialized blank_ctx) scenario) in
     font (_ctx this)
     = mkFont (if (String.length (fontStyle (_options this)) =? 0)%nat then ""
               else (fontStyle (_options this) ++ " ")%string)
              (fontSize (_options this)) (fontFamily (_options this))
     /\ textAlign (_ctx this) = "center".
Proof.
  assert (T : fst (setOptions rot_DEFAULTS fixed_pitch (Uninitialized blank_ctx) scenario)
              = true).
  { unfold scenario. now rewrite fresh_scenario. }
  split; [exact T|].
  cbv zeta. split.
  - apply (setOptions_repaint_geometry rot_DEFAULTS fixed_pitch
             (Uninitialized blank_ctx) scenario T).
  - apply (setOptions_repaint_geometry rot_DEFAULTS fixed_pitch
             (Uninitialized blank_ctx) scenario T).
Defined.

(** ** The fitted font *)

Lemma computeFontSize_core
    (measureText : Font -> string -> number) (this : Hex) (W H : number) :
  let o := _options this in
  fst (computeFontSize measureText this W H)
  = (Math_ceil
       (2 * IZR (Math_floor
                   (Math_min
                      (2 * along_columns this W H / ((width o + 1) * Math_sqrt 3) - 1)
                      (along_rows this W H / (2 + 1.5 * (height o - 1))))
                 + 1)
        / (spacing o
           * (1 + IZR (Math_ceil (measureText (mkFont "" 100 (fontFamily o)) "W"))
                  / 100 / Math_sqrt 3)))
     - 1)%Z.
Proof.
  unfold computeFontSize, along_columns, along_rows.
  destruct (transpose (_options this)); cbn [fst _ctx with_ctx font set_font _options].
  - replace (W + H - (W + H - H)) with H by ring.
    replace (W + H - H) with W by ring. reflexivity.
  - reflexivity.
Qed.

(** X14. A larger box never gets a smaller font: any two boxes without
    transposition, boxes of whole-number sides with it. *)
Theorem computeFontSize_monotone
    (measureText : Font -> string -> number) (this : Hex) (W H W' H' : number) :
  exchanged_exactly this W H ->
  exchanged_exactly this W' H' ->
  0 < width (_options this) + 1 ->
  0 < 2 + 1.5 * (height (_options this) - 1) ->
  0 < spacing (_options this) ->
  0 <= measureText (mkFont "" 100 (fontFamily (_options this))) "W" ->
  W <= W' -> H <= H' ->
  (fst (computeFontSize measureText this W H)
   <= fst (computeFontSize measureText this W' H'))%Z.
Proof.
  intros _ _ Hw Hh Hs Hm HW HH.
  assert (B := sqrt3_bounds).
  rewrite !computeFontSize_core. cbv zeta.
  assert (U : along_columns this W H <= along_columns this W' H').
  { unfold along_columns. destruct (transpose (_options this)); assumption. }
  assert (V : along_rows this W H <= along_rows this W' H').
  { unfold along_rows. destruct (transpose (_options this)); assumption. }
  set (u := along_columns this W H) in *. set (u' := along_columns this W' H') in *.
  set (v := along_rows this W H) in *. set (v' := along_rows this W' H') in *.
  set (d1 := (width (_options this) + 1) * Math_sqrt 3).
  set (d2 := 2 + 1.5 * (height (_options this) - 1)) in *.
  assert (D1 : 0 < / d1) by (apply Rinv_0_lt_compat; unfold d1; nra).
  assert (D2 : 0 < / d2) by (apply Rinv_0_lt_compat; exact Hh).
  assert (M : Math_min (2 * u / d1 - 1) (v / d2) <= Math_min (2 * u' / d1 - 1) (v' / d2)).
  { unfold Math_min. apply Rmin_glb.
    - eapply Rle_trans; [apply Rmin_l|]. unfold Rdiv.
      apply Rplus_le_compat_r. apply Rmult_le_compat_r; lra.
    - eapply Rle_trans; [apply Rmin_r|]. unfold Rdiv.
      apply Rmult_le_compat_r; lra. }
  assert (K : (0 <= Math_ceil (measureText (mkFont "" 100 (fontFamily (_options this))) "W"))%Z).
  { apply le_IZR. eapply Rle_trans; [exact Hm | apply Zceil_bound]. }
  apply IZR_le in K.
  set (ratio := IZR (Math_ceil (measureText (mkFont "" 100 (fontFamily (_options this))) "W"))
                / 100) in *.
  assert (Rt : 0 <= ratio / Math_sqrt 3).
  { apply Rmult_le_pos; [unfold ratio; lra|]. apply Rlt_le, Rinv_0_lt_compat. lra. }
  set (d := spacing (_options this) * (1 + ratio / Math_sqrt 3)).
  assert (Dpos : 0 < / d) by (apply Rinv_0_lt_compat; unfold d; nra).
  apply Z.sub_le_mono_r. unfold Math_ceil. apply Zceil_le.
  unfold Rdiv. apply Rmult_le_compat_r; [lra|].
  apply Rmult_le_compat_l; [lra|].
  apply IZR_le. apply Z.add_le_mono_r. unfold Math_floor. apply Zfloor_le. exact M.
Qed.

Lemma computeFontSize_monotone_witness :
  exchanged_exactly (ten_by_ten true) (IZR 180) (IZR 640)
  /\ exchanged_exactly (ten_by_ten true) (IZR 480) (IZR 640)
  /\ 0 < width (_options (ten_by_ten true)) + 1
  /\ 0 < 2 + 1.5 * (height (_options (ten_by_ten true)) - 1)
  /\ 0 < spacing (_options (ten_by_ten true))
  /\ 0 <= fixed_pitch (mkFont "" 100 (fontFamily (_options (ten_by_ten true)))) "W"
  /\ (fst (computeFontSize fixed_pitch (ten_by_ten true) (IZR 180) (IZR 640))
      <= fst (computeFontSize fixed_pitch (ten_by_ten true) (IZR 480) (IZR 640)))%Z.
Proof.
  assert (E : exchanged_exactly (ten_by_ten true) (IZR 180) (IZR 640)).
  { right. split; [exists 180%Z | exists 640%Z]; reflexivity. }
  assert (E' : exchanged_exactly (ten_by_ten true) (IZR 480) (IZR 640)).
  { right. split; [exists 480%Z | exists 640%Z]; reflexivity. }
  split; [exact E|]. split; [exact E'|].
  split; [simpl; lra|]. split; [simpl; lra|]. split; [simpl; lra|].
  split; [unfold fixed_pitch; simpl; lra|].
  apply (computeFontSize_monotone fixed_pitch (ten_by_ten true)
           (IZR 180) (IZR 640) (IZR 480) (IZR 640) E E').
  - simpl; lra.
  - simpl; lra.
  - simpl; lra.
  - unfold fixed_pitch; simpl; lra.
  - lra.
  - lra.
Defined.

(** * Stored geometry *)

(** The scenario's options at 30 pixels, in the plain face, lead to a
    circumradius of 20 on a canvas of 191 by 310. *)
Lemma plain_at_30_configures :
  setOptions rot_DEFAULTS wide_when_styled (Uninitialized blank_ctx) (scenario_with false 30)
  = (true, hex_of_radius false 30 20 191 310).
Proof.
  assert (B := sqrt3_bounds).
  unfold setOptions, BaseCanvas_setOptions, Backend_setOptions.
  cbn [prior strict_ne orb fst snd].
  cbv beta iota zeta.
  unfold _updateSize, wide_when_styled, hex_of_radius.
  cbn [_options _ctx with_ctx font font_px font_style set_font set_textAlign
       set_textBaseline set_canvas_width set_canvas_height
       defaultedOptions scenario_with or_default DEFAULTS rot_DEFAULTS
       width height layout fg bg fontSize spacing border fontFamily fontStyle
       transpose width' height' layout' fg' bg' fontSize' spacing' border'
       fontFamily' fontStyle' transpose' DEFAULTS_width DEFAULTS_height
       DEFAULTS_layout DEFAULTS_fg DEFAULTS_bg String.length Nat.eqb
       _spacingX _spacingY _hexSize fillStyle textAlign textBaseline
       canvas_width canvas_height calls blank_ctx].
  assert (C : Math_ceil (0.6 * 30) = 18%Z) by ceil_is.
  rewrite C.
  assert (F : Math_floor (1 * (30 + IZR 18 / Math_sqrt 3) / 2) = 20%Z).
  { assert (Q := div_between 18 (Math_sqrt 3) 10 11 ltac:(lra) ltac:(lra)). floor_is. }
  rewrite F.
  assert (Wd : Math_ceil ((10 + 1) * (IZR 20 * Math_sqrt 3 / 2)) = 191%Z) by ceil_is.
  assert (Hd : Math_ceil ((10 - 1) * (IZR 20 * 1.5) + 2 * IZR 20) = 310%Z) by ceil_is.
  rewrite Wd, Hd. reflexivity.
Qed.



